(** * Divya Drishti: Braille learning device firmware (divya_drishti1.ino)

    A shallow embedding of the ESP32 sketch: the navigation state machine,
    the two debounced button interrupt handlers, and the Braille pattern
    renderer, together with the properties of the design document that
    concern them.

    Conventions of the embedding.
    - [int] and [unsigned long] are 32 bits wide on the ESP32; values are
      modelled in [Z] with the wrap-around written out ([int32], [u32]).
    - Every call into the hardware libraries (servo write, DFPlayer, Serial,
      delay, pin set-up) is recorded in the [out] field of the state, newest
      call first; [trace] gives the calls in the order they were made.
    - [millis()] is an input: each function that reads the clock takes the
      value read as a parameter.
    - The sketch's functions are written in a small state monad whose
      outcomes are either a normal return or [Hang]: control has entered
      [while (1) { delay(1000); }] and never comes back. *)

From stdpp Require Import base decidable countable gmap list strings.
From Stdlib Require Import ZArith Lia.

#[local] Open Scope Z_scope.

(** ** Machine integers *)

Definition u32 (z : Z) : Z := z mod 2 ^ 32.

(** Two's-complement wrap of an [int].  Overflow of [int] is undefined in C++;
    the wrap is what the target does, and no reachable state exercises it. *)
Definition int32 (z : Z) : Z := (z + 2 ^ 31) mod 2 ^ 32 - 2 ^ 31.

(** [a - b] on [unsigned long]. *)
Definition sub32 (a b : Z) : Z := (a - b) mod 2 ^ 32.

(** ** Configuration constants *)

Module Pins.
Definition BUTTON_NEXT : Z := 13.
Definition BUTTON_PREV : Z := 14.
Definition SERVO_DOT1 : Z := 4.
Definition SERVO_DOT2 : Z := 5.
Definition SERVO_DOT3 : Z := 26.
Definition SERVO_DOT4 : Z := 25.
Definition SERVO_DOT5 : Z := 33.
Definition SERVO_DOT6 : Z := 32.
Definition DFPLAYER_RX : Z := 16.
Definition DFPLAYER_TX : Z := 17.
End Pins.

Module ServoAngles.
Definition DOT1_UP : Z := 175.
Definition DOT1_DOWN : Z := 155.
Definition DOT2_UP : Z := 20.
Definition DOT2_DOWN : Z := 0.
Definition DOT3_UP : Z := 180.
Definition DOT3_DOWN : Z := 165.
Definition DOT4_UP : Z := 0.
Definition DOT4_DOWN : Z := 20.
Definition DOT5_UP : Z := 150.
Definition DOT5_DOWN : Z := 185.
Definition DOT6_UP : Z := 0.
Definition DOT6_DOWN : Z := 20.
End ServoAngles.

Module Settings.
Definition TOTAL_LETTERS : Z := 26.
Definition INTRO_AUDIO_TRACK : Z := 27.
Definition VOLUME_LEVEL : Z := 25.
Definition SERVO_MOVEMENT_DELAY : Z := 500.
Definition AUDIO_DISPLAY_DELAY : Z := 2000.
Definition DEBOUNCE_DELAY : Z := 250.
Definition INTRO_AUDIO_DURATION : Z := 4000.
Definition SERIAL_BAUD : Z := 115200.
Definition DFPLAYER_BAUD : Z := 9600.
End Settings.

(** ** Hardware: the six servos, the two buttons, and the calls made to them *)

Inductive Dot := Dot1 | Dot2 | Dot3 | Dot4 | Dot5 | Dot6.

#[global] Instance Dot_eq_dec : EqDecision Dot.
Proof. solve_decision. Defined.

Definition dot_index (d : Dot) : nat :=
  match d with
  | Dot1 => 0 | Dot2 => 1 | Dot3 => 2 | Dot4 => 3 | Dot5 => 4 | Dot6 => 5
  end%nat.

Definition dot_of_index (n : nat) : Dot :=
  match n with
  | 0 => Dot1 | 1 => Dot2 | 2 => Dot3 | 3 => Dot4 | 4 => Dot5 | _ => Dot6
  end%nat.

#[global] Instance Dot_countable : Countable Dot.
Proof.
  refine (inj_countable' dot_index dot_of_index _).
  intros []; reflexivity.
Defined.

Definition all_dots : list Dot := [Dot1; Dot2; Dot3; Dot4; Dot5; Dot6].

Inductive Button := BtnNext | BtnPrev.

#[global] Instance Button_eq_dec : EqDecision Button.
Proof. solve_decision. Defined.

(** One call into a hardware library. *)
Inductive Out :=
| SerialBegin (baud : Z)
| SerialPrint (s : string)
| SerialPrintInt (n : Z)
| SerialPrintChar (c : Z)
| SerialPrintln (s : string)
| PinModePullup (pin : Z)
| AttachInterrupt (pin : Z) (b : Button)
| ServoAttach (d : Dot) (pin : Z)
| ServoWrite (d : Dot) (angle : Z)
| FPSerialBegin (baud rx tx : Z)
| DfVolume (level : Z)
| DfPlay (track : Z)
| NoInterrupts
| Interrupts
| Delay (ms : Z).

#[global] Instance Out_eq_dec : EqDecision Out.
Proof. solve_decision. Defined.

(** ** Program state: the sketch's globals and function-local statics *)

Record State := mkState {
  nextButtonPressed : bool;
  prevButtonPressed : bool;
  currentPosition : Z;
  lastActionTime : Z;
  isDisplayingPattern : bool;
  (* [static unsigned long lastInterruptTime] of nextButtonISR *)
  nextLastInterruptTime : Z;
  (* [static unsigned long lastInterruptTime] of prevButtonISR *)
  prevLastInterruptTime : Z;
  (* interrupt controller: has attachInterrupt been called for the pin *)
  nextISRAttached : bool;
  prevISRAttached : bool;
  (* hardware calls made so far, newest first *)
  out : list Out
}.

(** The globals as initialised at program load. *)
Definition initial_state : State :=
  {| nextButtonPressed := false;
     prevButtonPressed := false;
     currentPosition := 1;
     lastActionTime := 0;
     isDisplayingPattern := false;
     nextLastInterruptTime := 0;
     prevLastInterruptTime := 0;
     nextISRAttached := false;
     prevISRAttached := false;
     out := [] |}.

Definition trace (s : State) : list Out := rev (out s).

Definition set_nextButtonPressed (b : bool) (s : State) : State :=
  mkState b (prevButtonPressed s) (currentPosition s) (lastActionTime s)
    (isDisplayingPattern s) (nextLastInterruptTime s) (prevLastInterruptTime s)
    (nextISRAttached s) (prevISRAttached s) (out s).

Definition set_prevButtonPressed (b : bool) (s : State) : State :=
  mkState (nextButtonPressed s) b (currentPosition s) (lastActionTime s)
    (isDisplayingPattern s) (nextLastInterruptTime s) (prevLastInterruptTime s)
    (nextISRAttached s) (prevISRAttached s) (out s).

Definition set_currentPosition (p : Z) (s : State) : State :=
  mkState (nextButtonPressed s) (prevButtonPressed s) p (lastActionTime s)
    (isDisplayingPattern s) (nextLastInterruptTime s) (prevLastInterruptTime s)
    (nextISRAttached s) (prevISRAttached s) (out s).

Definition set_lastActionTime (t : Z) (s : State) : State :=
  mkState (nextButtonPressed s) (prevButtonPressed s) (currentPosition s) t
    (isDisplayingPattern s) (nextLastInterruptTime s) (prevLastInterruptTime s)
    (nextISRAttached s) (prevISRAttached s) (out s).

Definition set_isDisplayingPattern (b : bool) (s : State) : State :=
  mkState (nextButtonPressed s) (prevButtonPressed s) (currentPosition s)
    (lastActionTime s) b (nextLastInterruptTime s) (prevLastInterruptTime s)
    (nextISRAttached s) (prevISRAttached s) (out s).

Definition set_nextLastInterruptTime (t : Z) (s : State) : State :=
  mkState (nextButtonPressed s) (prevButtonPressed s) (currentPosition s)
    (lastActionTime s) (isDisplayingPattern s) t (prevLastInterruptTime s)
    (nextISRAttached s) (prevISRAttached s) (out s).

Definition set_prevLastInterruptTime (t : Z) (s : State) : State :=
  mkState (nextButtonPressed s) (prevButtonPressed s) (currentPosition s)
    (lastActionTime s) (isDisplayingPattern s) (nextLastInterruptTime s) t
    (nextISRAttached s) (prevISRAttached s) (out s).

Definition set_nextISRAttached (b : bool) (s : State) : State :=
  mkState (nextButtonPressed s) (prevButtonPressed s) (currentPosition s)
    (lastActionTime s) (isDisplayingPattern s) (nextLastInterruptTime s)
    (prevLastInterruptTime s) b (prevISRAttached s) (out s).

Definition set_prevISRAttached (b : bool) (s : State) : State :=
  mkState (nextButtonPressed s) (prevButtonPressed s) (currentPosition s)
    (lastActionTime s) (isDisplayingPattern s) (nextLastInterruptTime s)
    (prevLastInterruptTime s) (nextISRAttached s) b (out s).

Definition set_out (o : list Out) (s : State) : State :=
  mkState (nextButtonPressed s) (prevButtonPressed s) (currentPosition s)
    (lastActionTime s) (isDisplayingPattern s) (nextLastInterruptTime s)
    (prevLastInterruptTime s) (nextISRAttached s) (prevISRAttached s) o.

(** ** The monad of sketch code *)

Inductive Outcome (A : Type) :=
| Ret (a : A) (s : State)
| Hang (s : State).
Arguments Ret {A} a s.
Arguments Hang {A} s.

Definition M (A : Type) : Type := State → Outcome A.

#[global] Instance M_ret : MRet M := λ A a s, Ret a s.

#[global] Instance M_bind : MBind M := λ A B f m s,
  match m s with
  | Ret a s' => f a s'
  | Hang s' => Hang s'
  end.

Definition gets {A} (f : State → A) : M A := λ s, Ret (f s) s.

Definition modify (f : State → State) : M unit := λ s, Ret tt (f s).

Definition emit (o : Out) : M unit := modify (λ s, set_out (o :: out s) s).

Definition when (b : bool) (m : M unit) : M unit := if b then m else mret tt.

(** [while (1) { delay(1000); }]: the first iteration's delay is recorded
    and control never returns. *)
Definition halt_forever : M unit := λ s, Hang (set_out (Delay 1000 :: out s) s).

(** The state in which a computation leaves the machine, returned or hung. *)
Definition final {A} (o : Outcome A) : State :=
  match o with Ret _ s => s | Hang s => s end.

Definition exec {A} (m : M A) (s : State) : State := final (m s).

Definition returns {A} (o : Outcome A) : bool :=
  match o with Ret _ _ => true | Hang _ => false end.

Definition delay (ms : Z) : M unit := emit (Delay ms).

(** ** Servo control *)

Definition setDot1 (raised : bool) : M unit :=
  emit (ServoWrite Dot1 (if raised then ServoAngles.DOT1_UP else ServoAngles.DOT1_DOWN)).

Definition setDot2 (raised : bool) : M unit :=
  emit (ServoWrite Dot2 (if raised then ServoAngles.DOT2_UP else ServoAngles.DOT2_DOWN)).

Definition setDot3 (raised : bool) : M unit :=
  emit (ServoWrite Dot3 (if raised then ServoAngles.DOT3_UP else ServoAngles.DOT3_DOWN)).

Definition setDot4 (raised : bool) : M unit :=
  emit (ServoWrite Dot4 (if raised then ServoAngles.DOT4_UP else ServoAngles.DOT4_DOWN)).

Definition setDot5 (raised : bool) : M unit :=
  emit (ServoWrite Dot5 (if raised then ServoAngles.DOT5_UP else ServoAngles.DOT5_DOWN)).

Definition setDot6 (raised : bool) : M unit :=
  emit (ServoWrite Dot6 (if raised then ServoAngles.DOT6_UP else ServoAngles.DOT6_DOWN)).

Definition clearAllDots : M unit :=
  setDot1 false;;
  setDot2 false;;
  setDot3 false;;
  setDot4 false;;
  setDot5 false;;
  setDot6 false;;
  delay Settings.SERVO_MOVEMENT_DELAY.

(** ** Braille pattern display *)

Definition displayBraillePattern (letterNumber : Z) : M unit :=
  match letterNumber with
  | 1 => setDot1 true
  | 2 => setDot1 true;; setDot2 true
  | 3 => setDot1 true;; setDot4 true
  | 4 => setDot1 true;; setDot4 true;; setDot5 true
  | 5 => setDot1 true;; setDot5 true
  | 6 => setDot1 true;; setDot2 true;; setDot4 true
  | 7 => setDot1 true;; setDot2 true;; setDot4 true;; setDot5 true
  | 8 => setDot1 true;; setDot2 true;; setDot5 true
  | 9 => setDot2 true;; setDot4 true
  | 10 => setDot2 true;; setDot4 true;; setDot5 true
  | 11 => setDot1 true;; setDot3 true
  | 12 => setDot1 true;; setDot2 true;; setDot3 true
  | 13 => setDot1 true;; setDot3 true;; setDot4 true
  | 14 => setDot1 true;; setDot3 true;; setDot4 true;; setDot5 true
  | 15 => setDot1 true;; setDot3 true;; setDot5 true
  | 16 => setDot1 true;; setDot2 true;; setDot3 true;; setDot4 true
  | 17 => setDot1 true;; setDot2 true;; setDot3 true;; setDot4 true;; setDot5 true
  | 18 => setDot1 true;; setDot2 true;; setDot3 true;; setDot5 true
  | 19 => setDot2 true;; setDot3 true;; setDot4 true
  | 20 => setDot2 true;; setDot3 true;; setDot4 true;; setDot5 true
  | 21 => setDot1 true;; setDot3 true;; setDot6 true
  | 22 => setDot1 true;; setDot2 true;; setDot3 true;; setDot6 true
  | 23 => setDot2 true;; setDot4 true;; setDot5 true;; setDot6 true
  | 24 => setDot1 true;; setDot3 true;; setDot4 true;; setDot6 true
  | 25 => setDot1 true;; setDot3 true;; setDot4 true;; setDot5 true;; setDot6 true
  | 26 => setDot1 true;; setDot3 true;; setDot5 true;; setDot6 true
  | _ => mret tt   (* the switch has no default: nothing is written *)
  end;;
  delay Settings.SERVO_MOVEMENT_DELAY.

Definition playAudioForLetter (letterNumber : Z) : M unit :=
  emit (DfPlay letterNumber).

(** ** Navigation handlers *)

(** [(char)('A' + currentPosition - 1)] *)
Definition letter_char (p : Z) : Z := (65 + p - 1) mod 256.

Definition handleNextButton (now : Z) : M unit :=
  modify (λ s, set_currentPosition (int32 (currentPosition s + 1)) s);;
  p ← gets currentPosition;
  when (bool_decide (p > Settings.TOTAL_LETTERS)) (modify (set_currentPosition 1));;
  emit (SerialPrint "→ Next: Letter ");;
  p ← gets currentPosition;
  emit (SerialPrintInt p);;
  emit (SerialPrint " (");;
  emit (SerialPrintChar (letter_char p));;
  emit (SerialPrintln ")");;
  clearAllDots;;
  displayBraillePattern p;;
  playAudioForLetter p;;
  modify (set_lastActionTime (u32 now));;
  modify (set_isDisplayingPattern true).

Definition handlePreviousButton (now : Z) : M unit :=
  modify (λ s, set_currentPosition (int32 (currentPosition s - 1)) s);;
  p ← gets currentPosition;
  when (bool_decide (p < 1)) (modify (set_currentPosition Settings.TOTAL_LETTERS));;
  emit (SerialPrint "← Previous: Letter ");;
  p ← gets currentPosition;
  emit (SerialPrintInt p);;
  emit (SerialPrint " (");;
  emit (SerialPrintChar (letter_char p));;
  emit (SerialPrintln ")");;
  clearAllDots;;
  displayBraillePattern p;;
  playAudioForLetter p;;
  modify (set_lastActionTime (u32 now));;
  modify (set_isDisplayingPattern true).

(** ** Interrupt service routines *)

Definition nextButtonISR (now : Z) : M unit :=
  let currentTime := u32 now in
  lastInterruptTime ← gets nextLastInterruptTime;
  when (bool_decide (sub32 currentTime lastInterruptTime > Settings.DEBOUNCE_DELAY))
    (modify (set_nextButtonPressed true);;
     modify (set_nextLastInterruptTime currentTime)).

Definition prevButtonISR (now : Z) : M unit :=
  let currentTime := u32 now in
  lastInterruptTime ← gets prevLastInterruptTime;
  when (bool_decide (sub32 currentTime lastInterruptTime > Settings.DEBOUNCE_DELAY))
    (modify (set_prevButtonPressed true);;
     modify (set_prevLastInterruptTime currentTime)).

(** ** Main loop

    [now] is the value of [millis()] in the hold test (read only while a
    pattern is displayed), [tn] and [tp] the values read at the end of the
    two handlers. *)

Definition loop (now tn tp : Z) : M unit :=
  displaying ← gets isDisplayingPattern;
  last ← gets lastActionTime;
  when (displaying &&
        bool_decide (sub32 (u32 now) last >= Settings.AUDIO_DISPLAY_DELAY))
    (modify (set_isDisplayingPattern false));;
  displaying ← gets isDisplayingPattern;
  when (negb displaying)
    (emit NoInterrupts;;
     nextPressed ← gets nextButtonPressed;
     prevPressed ← gets prevButtonPressed;
     modify (set_nextButtonPressed false);;
     modify (set_prevButtonPressed false);;
     emit Interrupts;;
     when nextPressed (handleNextButton tn);;
     when prevPressed (handlePreviousButton tp));;
  delay 10.

(** ** Initialisation *)

Definition initializeButtons : M unit :=
  emit (PinModePullup Pins.BUTTON_NEXT);;
  emit (PinModePullup Pins.BUTTON_PREV);;
  emit (AttachInterrupt Pins.BUTTON_NEXT BtnNext);;
  modify (set_nextISRAttached true);;
  emit (AttachInterrupt Pins.BUTTON_PREV BtnPrev);;
  modify (set_prevISRAttached true);;
  emit (SerialPrintln "✓ Navigation buttons initialized").

Definition initializeServos : M unit :=
  emit (ServoAttach Dot1 Pins.SERVO_DOT1);;
  emit (ServoAttach Dot2 Pins.SERVO_DOT2);;
  emit (ServoAttach Dot3 Pins.SERVO_DOT3);;
  emit (ServoAttach Dot4 Pins.SERVO_DOT4);;
  emit (ServoAttach Dot5 Pins.SERVO_DOT5);;
  emit (ServoAttach Dot6 Pins.SERVO_DOT6);;
  emit (SerialPrintln "✓ Servo motors initialized").

(** [dfBeginOk] is the value returned by [dfPlayer.begin(FPSerial)]. *)
Definition initializeDFPlayer (dfBeginOk : bool) : M unit :=
  emit (FPSerialBegin Settings.DFPLAYER_BAUD Pins.DFPLAYER_RX Pins.DFPLAYER_TX);;
  when (negb dfBeginOk)
    (emit (SerialPrintln "✗ DFPlayer initialization failed!");;
     emit (SerialPrintln "  Please check:");;
     emit (SerialPrintln "  - Wiring connections");;
     emit (SerialPrintln "  - SD card is inserted");;
     emit (SerialPrintln "  - Audio files are present");;
     halt_forever);;
  emit (DfVolume Settings.VOLUME_LEVEL);;
  emit (SerialPrintln "✓ DFPlayer audio module initialized").

(** The line feed the sketch writes as an escape inside three of the messages
    of [setup]. *)
Definition LF : string :=
  String (Ascii.Ascii false true false true false false false false) EmptyString.

(** [now] is the value of [millis()] read at the end. *)
Definition setup (dfBeginOk : bool) (now : Z) : M unit :=
  emit (SerialBegin Settings.SERIAL_BAUD);;
  emit (SerialPrintln (LF +:+ "╔═══════════════════════════════════════════╗"));;
  emit (SerialPrintln "║     Divya Drishti Braille Learner         ║");;
  emit (SerialPrintln "║     Initializing System...                ║");;
  emit (SerialPrintln ("╚═══════════════════════════════════════════╝" +:+ LF));;
  initializeButtons;;
  initializeServos;;
  initializeDFPlayer dfBeginOk;;
  clearAllDots;;
  delay 1000;;
  emit (SerialPrintln "Playing introduction...");;
  emit (DfPlay Settings.INTRO_AUDIO_TRACK);;
  delay Settings.INTRO_AUDIO_DURATION;;
  emit (SerialPrintln ("System ready! Starting with letter A" +:+ LF));;
  p ← gets currentPosition;
  displayBraillePattern p;;
  p ← gets currentPosition;
  playAudioForLetter p;;
  modify (set_lastActionTime (u32 now));;
  modify (set_isDisplayingPattern true).

(** ** The running device

    The Arduino runtime calls [setup()] once and then [loop()] for ever;
    button edges arrive at any time.  The main thread is at one of three
    places: before [setup], in the halt loop of [initializeDFPlayer], or
    between two calls of [loop].

    A button edge runs the pin's ISR once [attachInterrupt] has been called
    for it.  ISRs run to completion and touch only the pending flags and their
    own timestamps; [loop] reads and clears the flags with interrupts masked
    and the rest of the main thread never touches them, so an ISR that fires
    in the middle of [setup], of a handler or of a delay has the effect of the
    same ISR fired between two main-thread events: edges are interleaved with
    whole main-thread events. *)

Inductive PC := AtBoot | Halted | InLoop.

#[global] Instance PC_eq_dec : EqDecision PC.
Proof. solve_decision. Defined.

Record Machine := mkMachine { pc : PC; st : State }.

Inductive Event :=
| Boot (dfBeginOk : bool) (now : Z)   (* the runtime calls setup() *)
| Poll (now tn tp : Z)                (* the main thread goes round once *)
| Edge (b : Button) (now : Z).        (* falling edge on a button pin *)

Definition boot_machine : Machine := mkMachine AtBoot initial_state.

Definition pressed (b : Button) (s : State) : bool :=
  match b with
  | BtnNext => nextButtonPressed s
  | BtnPrev => prevButtonPressed s
  end.

Definition last_accepted (b : Button) (s : State) : Z :=
  match b with
  | BtnNext => nextLastInterruptTime s
  | BtnPrev => prevLastInterruptTime s
  end.

Definition attached (b : Button) (s : State) : bool :=
  match b with
  | BtnNext => nextISRAttached s
  | BtnPrev => prevISRAttached s
  end.

Definition isr (b : Button) (now : Z) : M unit :=
  match b with
  | BtnNext => nextButtonISR now
  | BtnPrev => prevButtonISR now
  end.

Definition after_main (o : Outcome unit) : Machine :=
  match o with
  | Ret _ s => mkMachine InLoop s
  | Hang s => mkMachine Halted s
  end.

Definition step (e : Event) (m : Machine) : Machine :=
  match e with
  | Edge b t =>
      if attached b (st m) then mkMachine (pc m) (exec (isr b t) (st m)) else m
  | Boot ok t =>
      match pc m with
      | AtBoot => after_main (setup ok t (st m))
      | _ => m
      end
  | Poll now tn tp =>
      match pc m with
      | AtBoot => m
      | Halted => mkMachine Halted (exec (delay 1000) (st m))
      | InLoop => after_main (loop now tn tp (st m))
      end
  end.

Definition run (es : list Event) (m : Machine) : Machine :=
  fold_left (λ m e, step e m) es m.

Definition reachable (m : Machine) : Prop := ∃ es, run es boot_machine = m.

(** ** Reading the record of hardware calls *)

Definition up_angle (d : Dot) : Z :=
  match d with
  | Dot1 => ServoAngles.DOT1_UP | Dot2 => ServoAngles.DOT2_UP
  | Dot3 => ServoAngles.DOT3_UP | Dot4 => ServoAngles.DOT4_UP
  | Dot5 => ServoAngles.DOT5_UP | Dot6 => ServoAngles.DOT6_UP
  end.

Definition down_angle (d : Dot) : Z :=
  match d with
  | Dot1 => ServoAngles.DOT1_DOWN | Dot2 => ServoAngles.DOT2_DOWN
  | Dot3 => ServoAngles.DOT3_DOWN | Dot4 => ServoAngles.DOT4_DOWN
  | Dot5 => ServoAngles.DOT5_DOWN | Dot6 => ServoAngles.DOT6_DOWN
  end.

(** The angle [setDotN(raised)] writes to channel [d]. *)
Definition set_angle (d : Dot) (raised : bool) : Z :=
  if raised then up_angle d else down_angle d.

(** The calls made between state [s] and a later state [s'], oldest first. *)
Definition emitted_since (s s' : State) : list Out :=
  rev (take (length (out s') - length (out s)) (out s')).

Definition raised_write (o : Out) : option Dot :=
  match o with
  | ServoWrite d a => if decide (a = up_angle d) then Some d else None
  | _ => None
  end.

(** The channels a sequence of calls commands to the raised position. *)
Definition raised_dots (tr : list Out) : gset Dot :=
  list_to_set (omap raised_write tr).

(** The angle last written to channel [d], in a newest-first record. *)
Fixpoint last_write (d : Dot) (o : list Out) : option Z :=
  match o with
  | [] => None
  | ServoWrite d' a :: o' => if decide (d' = d) then Some a else last_write d o'
  | _ :: o' => last_write d o'
  end.

Definition commanded (s : State) (d : Dot) : option Z := last_write d (out s).

(** The hardware calls a newest-first record holds for channel [d]. *)
Definition writes_to (d : Dot) (o : list Out) : list Z :=
  omap (λ x, match x with
             | ServoWrite d' a => if decide (d' = d) then Some a else None
             | _ => None
             end) o.

(** The table of section 4.1 of the design document, written from its text:
    the standard Grade-1 Braille encoding of the letters A to Z. *)
Definition pattern_for (letter_index : Z) : gset Dot :=
  match letter_index with
  | 1 => {[Dot1]}   (* A *)
  | 2 => {[Dot1; Dot2]}   (* B *)
  | 3 => {[Dot1; Dot4]}   (* C *)
  | 4 => {[Dot1; Dot4; Dot5]}   (* D *)
  | 5 => {[Dot1; Dot5]}   (* E *)
  | 6 => {[Dot1; Dot2; Dot4]}   (* F *)
  | 7 => {[Dot1; Dot2; Dot4; Dot5]}   (* G *)
  | 8 => {[Dot1; Dot2; Dot5]}   (* H *)
  | 9 => {[Dot2; Dot4]}   (* I *)
  | 10 => {[Dot2; Dot4; Dot5]}   (* J *)
  | 11 => {[Dot1; Dot3]}   (* K *)
  | 12 => {[Dot1; Dot2; Dot3]}   (* L *)
  | 13 => {[Dot1; Dot3; Dot4]}   (* M *)
  | 14 => {[Dot1; Dot3; Dot4; Dot5]}   (* N *)
  | 15 => {[Dot1; Dot3; Dot5]}   (* O *)
  | 16 => {[Dot1; Dot2; Dot3; Dot4]}   (* P *)
  | 17 => {[Dot1; Dot2; Dot3; Dot4; Dot5]}   (* Q *)
  | 18 => {[Dot1; Dot2; Dot3; Dot5]}   (* R *)
  | 19 => {[Dot2; Dot3; Dot4]}   (* S *)
  | 20 => {[Dot2; Dot3; Dot4; Dot5]}   (* T *)
  | 21 => {[Dot1; Dot3; Dot6]}   (* U *)
  | 22 => {[Dot1; Dot2; Dot3; Dot6]}   (* V *)
  | 23 => {[Dot2; Dot4; Dot5; Dot6]}   (* W *)
  | 24 => {[Dot1; Dot3; Dot4; Dot6]}   (* X *)
  | 25 => {[Dot1; Dot3; Dot4; Dot5; Dot6]}   (* Y *)
  | 26 => {[Dot1; Dot3; Dot5; Dot6]}   (* Z *)
  | _ => ∅
  end.

(** ** Navigation arithmetic, as the handlers compute it *)

Definition next_position (p : Z) : Z :=
  let p' := int32 (p + 1) in
  if bool_decide (p' > Settings.TOTAL_LETTERS) then 1 else p'.

Definition prev_position (p : Z) : Z :=
  let p' := int32 (p - 1) in
  if bool_decide (p' < 1) then Settings.TOTAL_LETTERS else p'.

(** ** Debounce bookkeeping *)

(** Does the ISR of [b] accept an edge at clock value [now] in state [s]. *)
Definition accepts (b : Button) (now : Z) (s : State) : bool :=
  bool_decide (sub32 (u32 now) (last_accepted b s) > Settings.DEBOUNCE_DELAY).

(** Number of edges of button [b], at the clock values [ts] in turn, that its
    ISR accepts when started in state [s]. *)
Fixpoint accepted_edges (b : Button) (ts : list Z) (s : State) : nat :=
  match ts with
  | [] => 0
  | t :: ts' =>
      ((if accepts b t s then 1 else 0) + accepted_edges b ts' (exec (isr b t) s))%nat
  end.

(** The two examples of the debounce rule read without a condition on the
    first edge: of two edges of button [b] 100 ms apart, the first at clock
    value [t] in state [s], exactly one is accepted, and of two edges 300 ms
    apart both are. *)
Definition two_edge_examples (b : Button) (t : Z) (s : State) : Prop :=
  accepted_edges b [t; t + 100] s = 1%nat ∧
  accepted_edges b [t; t + 300] s = 2%nat.

(** Events that can occur while the pattern that was displayed at clock value
    [last] is still held: any button edge, and polls before the hold ends. *)
Definition during_hold (last : Z) (e : Event) : Prop :=
  match e with
  | Edge _ _ => True
  | Poll now _ _ => sub32 (u32 now) last < Settings.AUDIO_DISPLAY_DELAY
  | Boot _ _ => True
  end.

(** The state [loop] is in after its critical section, when it polls. *)
Definition take_flags (s : State) : State :=
  set_out (Interrupts :: NoInterrupts :: out s)
    (set_prevButtonPressed false
       (set_nextButtonPressed false (set_isDisplayingPattern false s))).

(** [loop] polls the flags at clock value [now] in state [s]: no pattern is
    held, or the hold has run out. *)
Definition ready_at (now : Z) (s : State) : bool :=
  negb (isDisplayingPattern s) ||
  bool_decide (sub32 (u32 now) (lastActionTime s) >= Settings.AUDIO_DISPLAY_DELAY).

(** Events between two polls of the flags, seen from a state [s] of the
    running device: button edges, and calls of [loop] that do not poll
    because a pattern is held and its hold is not over. *)
Definition between_polls (s : State) (e : Event) : Prop :=
  match e with
  | Edge _ _ => True
  | Poll now _ _ => ready_at now s = false
  | Boot _ _ => False
  end.

(** ** Vocabulary of the properties *)

(** The calls [displayBraillePattern n] makes, newest first. *)
Definition display_out (n : Z) : list Out :=
  out (exec (displayBraillePattern n) initial_state).

(** The calls [clearAllDots] makes, newest first. *)
Definition clear_out : list Out := out (exec clearAllDots initial_state).

(** The calls a navigation handler makes on reaching letter [p], newest
    first; [label] is the text that opens its log line. *)
Definition handler_out (label : string) (p : Z) : list Out :=
  DfPlay p :: display_out p ++ clear_out ++
  [SerialPrintln ")"; SerialPrintChar (letter_char p); SerialPrint " (";
   SerialPrintInt p; SerialPrint label].

(** The state after the ISR of [b] has accepted an edge at clock value [now]. *)
Definition accept_edge (b : Button) (now : Z) (s : State) : State :=
  match b with
  | BtnNext => set_nextLastInterruptTime (u32 now) (set_nextButtonPressed true s)
  | BtnPrev => set_prevLastInterruptTime (u32 now) (set_prevButtonPressed true s)
  end.

(** What [loop] does once it polls: at most one call of each handler, NEXT
    before PREV, then the 10 ms tick. *)
Definition dispatch (nextPressed prevPressed : bool) (tn tp : Z) : M unit :=
  when nextPressed (handleNextButton tn);;
  when prevPressed (handlePreviousButton tp);;
  delay 10.

(** The calls [setup] makes before [initializeDFPlayer] decides, newest
    first. *)
Definition bringup_out : list Out :=
  out (exec (emit (SerialBegin Settings.SERIAL_BAUD);;
             emit (SerialPrintln
                     (LF +:+ "╔═══════════════════════════════════════════╗"));;
             emit (SerialPrintln "║     Divya Drishti Braille Learner         ║");;
             emit (SerialPrintln "║     Initializing System...                ║");;
             emit (SerialPrintln
                     ("╚═══════════════════════════════════════════╝" +:+ LF));;
             initializeButtons;;
             initializeServos;;
             emit (FPSerialBegin Settings.DFPLAYER_BAUD Pins.DFPLAYER_RX
                     Pins.DFPLAYER_TX)) initial_state).

(** The diagnostic of a failed audio bring-up and the first delay of the halt
    loop, newest first. *)
Definition failure_out : list Out :=
  [Delay 1000;
   SerialPrintln "  - Audio files are present";
   SerialPrintln "  - SD card is inserted";
   SerialPrintln "  - Wiring connections";
   SerialPrintln "  Please check:";
   SerialPrintln "✗ DFPlayer initialization failed!"].

(** The calls a successful [setup] makes after the audio bring-up and before
    it renders the first letter, newest first. *)
Definition intro_out : list Out :=
  [SerialPrintln ("System ready! Starting with letter A" +:+ LF);
   Delay Settings.INTRO_AUDIO_DURATION;
   DfPlay Settings.INTRO_AUDIO_TRACK;
   SerialPrintln "Playing introduction...";
   Delay 1000] ++ clear_out ++
  [SerialPrintln "✓ DFPlayer audio module initialized";
   DfVolume Settings.VOLUME_LEVEL].

(** A handler called once for each clock value of [nows], in turn. *)
Fixpoint repeat_handler (h : Z → M unit) (nows : list Z) : M unit :=
  match nows with
  | [] => mret tt
  | now :: nows' => h now;; repeat_handler h nows'
  end.

(** The state of the device at letter E, hold over, both buttons pending. *)
Definition both_pending_at_E : State :=
  mkState true true 5 10000 true 12500 12600 true true [].

(** The reading of the renderer's contract under which a call of
    [displayBraillePattern] by itself writes every channel: each channel gets
    a set call whose argument is its membership in the letter's pattern. *)
Definition display_alone_drives_all_six (n : Z) (s : State) : Prop :=
  ∀ d, ServoWrite d (set_angle d (bool_decide (d ∈ pattern_for n)))
       ∈ emitted_since s (exec (displayBraillePattern n) s).

(** The device after a successful start, its first pattern on display. *)
Definition started : Machine := step (Boot true 6000) boot_machine.

(** What the hold keeps fixed: the main thread is between two calls of
    [loop], a pattern is on display since clock value [last] and the letter
    index is [p]. *)
Record holding (last p : Z) (m : Machine) : Prop := {
  holding_pc : pc m = InLoop;
  holding_displaying : isDisplayingPattern (st m) = true;
  holding_since : lastActionTime (st m) = last;
  holding_position : currentPosition (st m) = p;
}.

(** A press of NEXT 500 ms into the 2000 ms hold of the first letter. *)
Definition hold_events : list Event :=
  [Poll 6510 0 0; Edge BtnNext 6600; Poll 7000 0 0; Edge BtnNext 7200;
   Poll 7990 0 0].

(** Number of edges of button [b] among the events [es], run from machine
    state [m], that reach the button's ISR and pass its filter. *)
Fixpoint accepted_presses (b : Button) (es : list Event) (m : Machine) : nat :=
  match es with
  | [] => 0
  | e :: es' =>
      ((match e with
        | Edge b' t =>
            if bool_decide (b' = b) && attached b (st m) && accepts b t (st m)
            then 1 else 0
        | _ => 0
        end) + accepted_presses b es' (step e m))%nat
  end.

(** The tracks a sequence of hardware calls asks the DFPlayer to play; each
    navigation transition asks for exactly one. *)
Definition plays (tr : list Out) : list Z :=
  omap (λ o, match o with DfPlay n => Some n | _ => None end) tr.

(** The calls of one poll that dispatches, newest first. *)
Definition dispatch_out (n p : bool) (c : Z) : list Out :=
  let c1 := if n then next_position c else c in
  let c2 := if p then prev_position c1 else c1 in
  Delay 10 ::
  (if p then handler_out "← Previous: Letter " c2 else []) ++
  (if n then handler_out "→ Next: Letter " c1 else []).

(** Three presses of NEXT, each accepted, during the hold of the first
    letter, with calls of [loop] that find the hold still on. *)
Definition three_presses : list Event :=
  [Poll 6010 0 0; Edge BtnNext 6500; Poll 6510 0 0; Poll 6520 0 0;
   Edge BtnNext 7000; Poll 7300 0 0; Edge BtnNext 7500; Poll 7990 0 0].

(** A hardware call that moves a dot or drives the audio module. *)
Definition is_rendering (o : Out) : bool :=
  match o with
  | ServoWrite _ _ | DfPlay _ | DfVolume _ => true
  | _ => false
  end.

(** The reading of the failure policy under which no interrupt handler is
    ever reached once the audio bring-up has failed: a button edge leaves the
    halted device as it was. *)
Definition interrupts_never_reached (m : Machine) : Prop :=
  ∀ b t, step (Edge b t) m = m.

(** What holds of the device for ever after a failed bring-up. *)
Record halted_quiet (m : Machine) : Prop := {
  halted_pc : pc m = Halted;
  halted_position : currentPosition (st m) = 1;
  halted_not_displaying : isDisplayingPattern (st m) = false;
  halted_next_attached : nextISRAttached (st m) = true;
  halted_prev_attached : prevISRAttached (st m) = true;
  halted_diagnostic :
    SerialPrintln "✗ DFPlayer initialization failed!" ∈ out (st m);
  halted_no_rendering : Forall (λ o, is_rendering o = false) (out (st m));
  halted_no_poll : NoInterrupts ∉ out (st m);
}.

(** The six channels are last commanded to the pattern of the current
    letter: raised for its dots, lowered for the others. *)
Definition shows_current_letter (s : State) : Prop :=
  ∀ d, commanded s d =
       Some (set_angle d (bool_decide (d ∈ pattern_for (currentPosition s)))).

(** The volume levels a sequence of hardware calls sets on the DFPlayer. *)
Definition volume_calls (tr : list Out) : list Z :=
  omap (λ o, match o with DfVolume v => Some v | _ => None end) tr.

(** The time, in ms, a sequence of hardware calls spends in [delay]. *)
Definition total_delay (tr : list Out) : Z :=
  foldr (λ o acc, match o with Delay ms => ms + acc | _ => acc end) 0 tr.

(** The calls that move a dot or drive the audio module, in order. *)
Definition rendering_calls (tr : list Out) : list Out :=
  filter (λ o, is_rendering o) tr.

(** A hardware call with arguments in the ranges the sketch intends: a servo
    is written one of its channel's two calibrated angles, a track number is
    one of the 27 files, the volume is the configured level. *)
Definition wf_call (o : Out) : bool :=
  match o with
  | ServoWrite d a => bool_decide (a = up_angle d) || bool_decide (a = down_angle d)
  | DfPlay n => bool_decide (1 ≤ n ≤ Settings.INTRO_AUDIO_TRACK)
  | DfVolume v => bool_decide (v = Settings.VOLUME_LEVEL)
  | _ => true
  end.

(** The Braille cell a set of raised dots forms: one boolean per dot, dots 1
    to 6. *)
Definition cell (dots : gset Dot) : list bool :=
  map (λ d, bool_decide (d ∈ dots)) all_dots.

(** The dots [displayBraillePattern n] raises. *)
Definition raised_by_display (n : Z) : gset Dot :=
  raised_dots (rev (display_out n)).

(** The event is not an edge of button [b]. *)
Definition no_edge_of (b : Button) (e : Event) : Prop :=
  match e with
  | Edge b' _ => b' ≠ b
  | _ => True
  end.

(** The calls one event of the device adds to the record, newest first. *)
Definition step_out (e : Event) (m : Machine) : list Out :=
  let s := st m in
  match e with
  | Edge _ _ => []
  | Boot ok _ =>
      match pc m with
      | AtBoot =>
          if ok
          then DfPlay (currentPosition s) :: display_out (currentPosition s) ++
               intro_out ++ bringup_out
          else failure_out ++ bringup_out
      | _ => []
      end
  | Poll now _ _ =>
      match pc m with
      | AtBoot => []
      | Halted => [Delay 1000]
      | InLoop =>
          if ready_at now s
          then dispatch_out (nextButtonPressed s) (prevButtonPressed s)
                 (currentPosition s) ++ [Interrupts; NoInterrupts]
          else [Delay 10]
      end
  end.

(** The dots a call of [displayBraillePattern n] made in state [s] raises. *)
Definition raises (n : Z) (s : State) : gset Dot :=
  raised_dots (emitted_since s (exec (displayBraillePattern n) s)).

(** Tracks asked for so far, plus presses recorded and not yet handled. *)
Definition served_or_pending (m : Machine) : nat :=
  (length (plays (out (st m))) +
   (if nextButtonPressed (st m) then 1 else 0) +
   (if prevButtonPressed (st m) then 1 else 0))%nat.

(** The two tracks of a start-up still to come. *)
Definition startup_tracks (m : Machine) : nat :=
  match pc m with AtBoot => 2 | _ => 0 end%nat.

(** Is the event an edge of button [b] that its ISR accepts in [m]. *)
Definition accepted_edge (b : Button) (e : Event) (m : Machine) : bool :=
  match e with
  | Edge b' t => bool_decide (b' = b) && attached b (st m) && accepts b t (st m)
  | _ => false
  end.

(** * Properties *)

(** ** Frame lemmas: what each function touches *)

Lemma displayBraillePattern_frame n s :
  displayBraillePattern n s = Ret tt (set_out (display_out n ++ out s) s).
Proof.
  destruct n as [|p|p]; [reflexivity| |reflexivity].
  do 5 (try destruct p as [p|p|]; try reflexivity).
Qed.

#[local] Arguments displayBraillePattern : simpl never.

Lemma clearAllDots_frame s :
  clearAllDots s = Ret tt (set_out (clear_out ++ out s) s).
Proof. reflexivity. Qed.

Lemma handleNextButton_eq now s :
  handleNextButton now s =
  Ret tt (mkState (nextButtonPressed s) (prevButtonPressed s)
            (next_position (currentPosition s)) (u32 now) true
            (nextLastInterruptTime s) (prevLastInterruptTime s)
            (nextISRAttached s) (prevISRAttached s)
            (handler_out "→ Next: Letter " (next_position (currentPosition s))
               ++ out s)).
Proof.
  unfold handleNextButton, next_position, mbind, M_bind, gets, modify, emit, when.
  cbn. destruct (bool_decide _); cbn;
    rewrite clearAllDots_frame; cbn;
    rewrite displayBraillePattern_frame; cbn;
    unfold handler_out; rewrite <- !app_assoc; reflexivity.
Qed.

Lemma handlePreviousButton_eq now s :
  handlePreviousButton now s =
  Ret tt (mkState (nextButtonPressed s) (prevButtonPressed s)
            (prev_position (currentPosition s)) (u32 now) true
            (nextLastInterruptTime s) (prevLastInterruptTime s)
            (nextISRAttached s) (prevISRAttached s)
            (handler_out "← Previous: Letter " (prev_position (currentPosition s))
               ++ out s)).
Proof.
  unfold handlePreviousButton, prev_position, mbind, M_bind, gets, modify, emit, when.
  cbn. destruct (bool_decide _); cbn;
    rewrite clearAllDots_frame; cbn;
    rewrite displayBraillePattern_frame; cbn;
    unfold handler_out; rewrite <- !app_assoc; reflexivity.
Qed.

Lemma isr_eq b now s :
  isr b now s = Ret tt (if accepts b now s then accept_edge b now s else s).
Proof.
  destruct b; unfold isr, nextButtonISR, prevButtonISR, accepts, last_accepted;
    unfold mbind, M_bind, gets, modify, when; cbn;
    destruct (bool_decide _); reflexivity.
Qed.

Lemma exec_isr b now s :
  exec (isr b now) s = if accepts b now s then accept_edge b now s else s.
Proof. unfold exec. rewrite isr_eq. reflexivity. Qed.

Lemma loop_eq now tn tp s :
  loop now tn tp s =
  if ready_at now s
  then dispatch (nextButtonPressed s) (prevButtonPressed s) tn tp (take_flags s)
  else delay 10 s.
Proof.
  unfold loop, ready_at, dispatch, take_flags, mbind, M_bind, gets, modify,
    emit, when, delay.
  destruct s as [n p c l d nl pl na pa o]; cbn.
  destruct d; cbn; [destruct (bool_decide _); cbn|];
    try reflexivity;
    destruct n; cbn; rewrite ?handleNextButton_eq; cbn;
    destruct p; cbn; rewrite ?handlePreviousButton_eq; reflexivity.
Qed.

Lemma dispatch_eq n p tn tp s :
  dispatch n p tn tp s =
  Ret tt (let s1 := if n then exec (handleNextButton tn) s else s in
          let s2 := if p then exec (handlePreviousButton tp) s1 else s1 in
          set_out (Delay 10 :: out s2) s2).
Proof.
  unfold dispatch, mbind, M_bind, when, delay, emit, modify, exec.
  destruct n; cbn; rewrite ?handleNextButton_eq; cbn;
    destruct p; cbn; rewrite ?handlePreviousButton_eq; reflexivity.
Qed.

Lemma setup_failed_eq now s :
  setup false now s =
  Hang (mkState (nextButtonPressed s) (prevButtonPressed s)
          (currentPosition s) (lastActionTime s) (isDisplayingPattern s)
          (nextLastInterruptTime s) (prevLastInterruptTime s) true true
          (failure_out ++ bringup_out ++ out s)).
Proof. reflexivity. Qed.

Lemma setup_ok_eq now s :
  setup true now s =
  Ret tt (mkState (nextButtonPressed s) (prevButtonPressed s)
            (currentPosition s) (u32 now) true
            (nextLastInterruptTime s) (prevLastInterruptTime s) true true
            (DfPlay (currentPosition s) :: display_out (currentPosition s) ++
             intro_out ++ bringup_out ++ out s)).
Proof.
  unfold setup, initializeButtons, initializeServos, initializeDFPlayer,
    mbind, M_bind, gets, modify, emit, when, delay.
  cbn. rewrite clearAllDots_frame. cbn.
  rewrite displayBraillePattern_frame. reflexivity.
Qed.

(** ** Navigation arithmetic *)

Lemma next_position_letter p :
  1 ≤ p ≤ 26 → next_position p = (if decide (p = 26) then 1 else p + 1).
Proof.
  intros Hp. unfold next_position, int32, Settings.TOTAL_LETTERS.
  change (2 ^ 31) with 2147483648. change (2 ^ 32) with 4294967296.
  rewrite Z.mod_small by lia.
  case_bool_decide; case_decide; lia.
Qed.

Lemma prev_position_letter p :
  1 ≤ p ≤ 26 → prev_position p = (if decide (p = 1) then 26 else p - 1).
Proof.
  intros Hp. unfold prev_position, int32, Settings.TOTAL_LETTERS.
  change (2 ^ 31) with 2147483648. change (2 ^ 32) with 4294967296.
  rewrite Z.mod_small by lia.
  case_bool_decide; case_decide; lia.
Qed.

Lemma next_position_range p : 1 ≤ p ≤ 26 → 1 ≤ next_position p ≤ 26.
Proof. intros Hp. rewrite next_position_letter by done. case_decide; lia. Qed.

Lemma prev_position_range p : 1 ≤ p ≤ 26 → 1 ≤ prev_position p ≤ 26.
Proof. intros Hp. rewrite prev_position_letter by done. case_decide; lia. Qed.

Lemma prev_next_position p : 1 ≤ p ≤ 26 → prev_position (next_position p) = p.
Proof.
  intros Hp. rewrite prev_position_letter by (by apply next_position_range).
  rewrite next_position_letter by done. repeat case_decide; lia.
Qed.

Lemma currentPosition_handleNextButton now s :
  currentPosition (exec (handleNextButton now) s) = next_position (currentPosition s).
Proof. unfold exec. rewrite handleNextButton_eq. reflexivity. Qed.

Lemma currentPosition_handlePreviousButton now s :
  currentPosition (exec (handlePreviousButton now) s) = prev_position (currentPosition s).
Proof. unfold exec. rewrite handlePreviousButton_eq. reflexivity. Qed.

(** ** The position across one event of the running device *)

Lemma currentPosition_isr b now s :
  currentPosition (exec (isr b now) s) = currentPosition s.
Proof. rewrite exec_isr. destruct (accepts b now s), b; reflexivity. Qed.

Lemma currentPosition_setup ok now s :
  currentPosition (final (setup ok now s)) = currentPosition s.
Proof.
  destruct ok; [rewrite setup_ok_eq | rewrite setup_failed_eq]; reflexivity.
Qed.

Lemma currentPosition_set_out o s :
  currentPosition (set_out o s) = currentPosition s.
Proof. reflexivity. Qed.

Lemma currentPosition_loop now tn tp s :
  currentPosition (final (loop now tn tp s)) =
  if ready_at now s
  then (if prevButtonPressed s then prev_position else id)
         ((if nextButtonPressed s then next_position else id) (currentPosition s))
  else currentPosition s.
Proof.
  rewrite loop_eq. destruct (ready_at now s); [|reflexivity].
  rewrite dispatch_eq. unfold final. cbv zeta.
  rewrite currentPosition_set_out.
  destruct (nextButtonPressed s), (prevButtonPressed s);
    rewrite ?currentPosition_handlePreviousButton,
      ?currentPosition_handleNextButton; reflexivity.
Qed.

Lemma st_after_main o : st (after_main o) = final o.
Proof. destruct o; reflexivity. Qed.

Lemma step_currentPosition e m :
  let p := currentPosition (st m) in
  let p' := currentPosition (st (step e m)) in
  p' = p ∨ p' = next_position p ∨ p' = prev_position p ∨
  p' = prev_position (next_position p).
Proof.
  destruct e as [ok t|now tn tp|b t]; cbn.
  - destruct (pc m); [|by left..].
    rewrite st_after_main, currentPosition_setup. by left.
  - destruct (pc m); [by left..|].
    rewrite st_after_main, currentPosition_loop.
    destruct (ready_at now (st m)); [|by left].
    destruct (prevButtonPressed (st m)), (nextButtonPressed (st m)); cbn; auto.
  - destruct (attached b (st m)); [|by left].
    cbn. rewrite currentPosition_isr. by left.
Qed.

Lemma reachable_ind (P : Machine → Prop) :
  P boot_machine →
  (∀ m e, reachable m → P m → P (step e m)) →
  ∀ m, reachable m → P m.
Proof.
  intros Hboot Hstep m [es <-].
  induction es as [|e es IH] using rev_ind; [exact Hboot|].
  unfold run in *. rewrite fold_left_app. cbn.
  apply Hstep; [by exists es | exact IH].
Qed.


Lemma reachable_range m : reachable m → 1 ≤ currentPosition (st m) ≤ 26.
Proof.
  revert m. apply reachable_ind; [cbn; lia|].
  intros m e _ Hp.
  pose proof (next_position_range _ Hp).
  pose proof (prev_position_range _ Hp).
  pose proof (prev_next_position _ Hp).
  destruct (step_currentPosition e m) as [->|[->|[->| ->]]]; lia.
Qed.



(** ** Wrap-around at the two ends of the alphabet *)

Lemma handleNextButton_returns now s : returns (handleNextButton now s) = true.
Proof. rewrite handleNextButton_eq. reflexivity. Qed.

Lemma handlePreviousButton_returns now s :
  returns (handlePreviousButton now s) = true.
Proof. rewrite handlePreviousButton_eq. reflexivity. Qed.

(** C3. [handleNextButton] called with the letter index at 26 returns with the
    index at 1, and [handlePreviousButton] called with the index at 1 returns
    with the index at 26. *)
Theorem wraparound_at_both_ends (sz sa : State) (now : Z) :
  currentPosition sz = 26 →
  currentPosition sa = 1 →
  (returns (handleNextButton now sz) = true ∧
   currentPosition (exec (handleNextButton now) sz) = 1) ∧
  (returns (handlePreviousButton now sa) = true ∧
   currentPosition (exec (handlePreviousButton now) sa) = 26).
Proof.
  intros Hz Ha.
  rewrite handleNextButton_returns, handlePreviousButton_returns.
  rewrite currentPosition_handleNextButton, currentPosition_handlePreviousButton.
  rewrite Hz, Ha. split; (split; [reflexivity | vm_compute; reflexivity]).
Qed.

Lemma wraparound_at_both_ends_witness :
  currentPosition (set_currentPosition 26 initial_state) = 26 ∧
  currentPosition initial_state = 1 ∧
  currentPosition
    (exec (handleNextButton 9000) (set_currentPosition 26 initial_state)) = 1 ∧
  currentPosition (exec (handlePreviousButton 9000) initial_state) = 26.
Proof.
  pose proof (wraparound_at_both_ends (set_currentPosition 26 initial_state)
                initial_state 9000 eq_refl eq_refl) as [[_ Hn] [_ Hp]].
  split; [reflexivity|]. split; [reflexivity|]. split; [exact Hn | exact Hp].
Defined.

(** ** Full cycles *)

Lemma repeat_handler_cons h now nows s :
  repeat_handler h (now :: nows) s =
  match h now s with
  | Ret _ s' => repeat_handler h nows s'
  | Hang s' => Hang s'
  end.
Proof. reflexivity. Qed.

Lemma repeat_next nows s :
  returns (repeat_handler handleNextButton nows s) = true ∧
  currentPosition (exec (repeat_handler handleNextButton nows) s) =
  Nat.iter (length nows) next_position (currentPosition s).
Proof.
  revert s. induction nows as [|t nows IH]; intros s; [done|].
  destruct (IH (exec (handleNextButton t) s)) as [Hret Hpos].
  rewrite currentPosition_handleNextButton in Hpos.
  set (s1 := exec (handleNextButton t) s) in *.
  assert (E : handleNextButton t s = Ret tt s1)
    by (unfold s1, exec; by rewrite handleNextButton_eq).
  unfold exec in *. rewrite repeat_handler_cons, E.
  split; [exact Hret|]. rewrite Hpos. symmetry. apply Nat.iter_succ_r.
Qed.

Lemma repeat_prev nows s :
  returns (repeat_handler handlePreviousButton nows s) = true ∧
  currentPosition (exec (repeat_handler handlePreviousButton nows) s) =
  Nat.iter (length nows) prev_position (currentPosition s).
Proof.
  revert s. induction nows as [|t nows IH]; intros s; [done|].
  destruct (IH (exec (handlePreviousButton t) s)) as [Hret Hpos].
  rewrite currentPosition_handlePreviousButton in Hpos.
  set (s1 := exec (handlePreviousButton t) s) in *.
  assert (E : handlePreviousButton t s = Ret tt s1)
    by (unfold s1, exec; by rewrite handlePreviousButton_eq).
  unfold exec in *. rewrite repeat_handler_cons, E.
  split; [exact Hret|]. rewrite Hpos. symmetry. apply Nat.iter_succ_r.
Qed.

(** C9. From letter index 1, twenty-six consecutive calls of
    [handleNextButton] all return and bring the index back to 1, and so do
    twenty-six consecutive calls of [handlePreviousButton], whatever the
    clock reads at each call. *)
Theorem full_cycle_round_trip (s : State) (nows : list Z) :
  length nows = 26%nat →
  currentPosition s = 1 →
  (returns (repeat_handler handleNextButton nows s) = true ∧
   currentPosition (exec (repeat_handler handleNextButton nows) s) = 1) ∧
  (returns (repeat_handler handlePreviousButton nows s) = true ∧
   currentPosition (exec (repeat_handler handlePreviousButton nows) s) = 1).
Proof.
  intros Hlen Hs.
  destruct (repeat_next nows s) as [Hrn Hn].
  destruct (repeat_prev nows s) as [Hrp Hp].
  rewrite Hlen, Hs in Hn, Hp.
  split; (split; [done|]); [rewrite Hn | rewrite Hp]; vm_compute; reflexivity.
Qed.

Lemma full_cycle_round_trip_witness :
  let nows := map (λ k, 3000 * Z.of_nat k) (seq 1 26) in
  length nows = 26%nat ∧
  currentPosition initial_state = 1 ∧
  currentPosition (exec (repeat_handler handleNextButton nows) initial_state) = 1 ∧
  currentPosition (exec (repeat_handler handlePreviousButton nows) initial_state) = 1.
Proof.
  intros nows.
  pose proof (full_cycle_round_trip initial_state nows eq_refl eq_refl)
    as [[_ Hn] [_ Hp]].
  split; [reflexivity|]. split; [reflexivity|]. split; [exact Hn | exact Hp].
Defined.

(** The positions visited on the way: a NEXT cycle from 1 passes through
    2, 3, ..., 26 before it returns, a PREV cycle through 26, 25, ..., 2. *)
Lemma full_cycle_visits_every_letter :
  map (λ k, Nat.iter k next_position 1) (seq 1 26) =
    map Z.of_nat (seq 2 25) ++ [1] ∧
  map (λ k, Nat.iter k prev_position 1) (seq 1 26) =
    rev (map Z.of_nat (seq 1 26)).
Proof. split; vm_compute; reflexivity. Qed.

(** ** Both buttons pending at one poll *)

Lemma loop_returns now tn tp s : returns (loop now tn tp s) = true.
Proof.
  rewrite loop_eq. destruct (ready_at now s); [|reflexivity].
  rewrite dispatch_eq. reflexivity.
Qed.

Lemma exec_loop_ready now tn tp s :
  ready_at now s = true →
  exec (loop now tn tp) s =
  exec (dispatch (nextButtonPressed s) (prevButtonPressed s) tn tp) (take_flags s).
Proof. intros H. unfold exec. rewrite loop_eq, H. reflexivity. Qed.

Lemma exec_loop_holding now tn tp s :
  ready_at now s = false →
  exec (loop now tn tp) s = set_out (Delay 10 :: out s) s.
Proof. intros H. unfold exec. rewrite loop_eq, H. reflexivity. Qed.

(** C4. When [loop] polls with both flags set, it calls [handleNextButton]
    and then [handlePreviousButton] on the state the first call left, in that
    one iteration; both flags are cleared.  From letter index 5 the NEXT call
    gives 6 and the PREV call gives 5 again. *)
Theorem both_pending_next_then_prev (s : State) (now tn tp : Z) :
  ready_at now s = true →
  nextButtonPressed s = true →
  prevButtonPressed s = true →
  let s1 := exec (handleNextButton tn) (take_flags s) in
  let s2 := exec (handlePreviousButton tp) s1 in
  let s' := exec (loop now tn tp) s in
  returns (loop now tn tp s) = true ∧
  s' = exec (delay 10) s2 ∧
  nextButtonPressed s' = false ∧ prevButtonPressed s' = false ∧
  (currentPosition s = 5 →
   currentPosition s1 = 6 ∧ currentPosition s2 = 5 ∧ currentPosition s' = 5).
Proof.
  intros Hready Hn Hp s1 s2 s'.
  assert (Hs' : s' = exec (delay 10) s2).
  { subst s' s2 s1. rewrite exec_loop_ready by done. rewrite Hn, Hp.
    unfold exec. rewrite dispatch_eq. reflexivity. }
  assert (H1 : currentPosition s1 = next_position (currentPosition s)).
  { subst s1. by rewrite currentPosition_handleNextButton. }
  assert (H2 : currentPosition s2 = prev_position (currentPosition s1)).
  { subst s2. by rewrite currentPosition_handlePreviousButton. }
  split; [apply loop_returns|]. split; [exact Hs'|].
  split; [|split].
  - rewrite Hs'. subst s2 s1. unfold exec.
    rewrite handleNextButton_eq. cbn [final].
    rewrite handlePreviousButton_eq. reflexivity.
  - rewrite Hs'. subst s2 s1. unfold exec.
    rewrite handleNextButton_eq. cbn [final].
    rewrite handlePreviousButton_eq. reflexivity.
  - intros H5. rewrite Hs'.
    change (currentPosition (exec (delay 10) s2)) with (currentPosition s2).
    rewrite H2, H1, H5. repeat split; vm_compute; reflexivity.
Qed.

Lemma both_pending_next_then_prev_witness :
  ready_at 13000 both_pending_at_E = true ∧
  nextButtonPressed both_pending_at_E = true ∧
  prevButtonPressed both_pending_at_E = true ∧
  currentPosition (exec (loop 13000 14000 15000) both_pending_at_E) = 5.
Proof.
  split; [reflexivity|]. split; [reflexivity|]. split; [reflexivity|].
  pose proof (both_pending_next_then_prev both_pending_at_E 13000 14000 15000
                eq_refl eq_refl eq_refl) as (_ & _ & _ & _ & H).
  exact (proj2 (proj2 (H eq_refl))).
Defined.

(** ** The renderer *)

Lemma emitted_since_app s s' pre :
  out s' = pre ++ out s → emitted_since s s' = rev pre.
Proof.
  intros H. unfold emitted_since. rewrite H, length_app.
  replace (length pre + length (out s) - length (out s))%nat
    with (length pre) by lia.
  by rewrite take_app_length.
Qed.

Lemma emitted_displayBraillePattern n s :
  emitted_since s (exec (displayBraillePattern n) s) = rev (display_out n).
Proof.
  apply emitted_since_app. unfold exec.
  rewrite displayBraillePattern_frame. reflexivity.
Qed.

Lemma displayBraillePattern_returns n s :
  returns (displayBraillePattern n s) = true.
Proof. rewrite displayBraillePattern_frame. reflexivity. Qed.

Lemma letter_cases n : 1 ≤ n ≤ 26 → n ∈ seqZ 1 26.
Proof. intros H. apply elem_of_seqZ. lia. Qed.

(** A property of every letter index, checked index by index. *)
Lemma for_each_letter (P : Z → Prop) :
  Forall P (seqZ 1 26) → ∀ n, 1 ≤ n ≤ 26 → P n.
Proof.
  intros H n Hn. rewrite Forall_forall in H. apply H. by apply letter_cases.
Qed.

Lemma display_out_raises_pattern :
  Forall (λ n, raised_dots (rev (display_out n)) = pattern_for n) (seqZ 1 26).
Proof.
  cbv [seqZ Z.to_nat Pos.to_nat Pos.iter_op Nat.add seq fmap list_fmap
       Z.of_nat Pos.of_succ_nat Pos.succ Z.add Pos.add].
  repeat (constructor; [vm_compute; reflexivity|]). constructor.
Qed.

(** C2. For every letter index in [1,26], the channels that
    [displayBraillePattern] commands to the raised position are exactly the
    dots of the letter in the Grade-1 table of the design document. *)
Theorem displayBraillePattern_raises_grade1 (n : Z) (s : State) :
  1 ≤ n ≤ 26 →
  returns (displayBraillePattern n s) = true ∧
  raised_dots (emitted_since s (exec (displayBraillePattern n) s)) = pattern_for n.
Proof.
  intros Hn. split; [apply displayBraillePattern_returns|].
  rewrite emitted_displayBraillePattern.
  apply (for_each_letter _ display_out_raises_pattern n Hn).
Qed.

Lemma displayBraillePattern_raises_grade1_witness :
  1 ≤ 23 ≤ 26 ∧
  raised_dots (emitted_since initial_state
                 (exec (displayBraillePattern 23) initial_state))
  = {[Dot2; Dot4; Dot5; Dot6]}.
Proof.
  assert (H : 1 ≤ 23 ≤ 26) by lia.
  split; [exact H|].
  exact (proj2 (displayBraillePattern_raises_grade1 23 initial_state H)).
Defined.

(** *** Which channels a render writes *)

(** Against C8 as worded.  Letter A after dot 2 was raised:
    [displayBraillePattern(1)] makes one
    servo call, [setDot1(true)], and none to channel 2, which is not in the
    pattern of A and stays commanded raised.  The commanded state after the
    call depends on what was commanded before it. *)
Lemma displayBraillePattern_leaves_other_channels :
  let s_up := exec (setDot2 true) initial_state in
  let s_down := exec (setDot2 false) initial_state in
  (Dot2 ∉ pattern_for 1) ∧
  emitted_since s_up (exec (displayBraillePattern 1) s_up) =
    [ServoWrite Dot1 ServoAngles.DOT1_UP; Delay 500] ∧
  commanded (exec (displayBraillePattern 1) s_up) Dot2 = Some ServoAngles.DOT2_UP ∧
  commanded (exec (displayBraillePattern 1) s_down) Dot2 = Some ServoAngles.DOT2_DOWN ∧
  ¬ display_alone_drives_all_six 1 s_up.
Proof.
  intros s_up s_down.
  split; [vm_compute; intros H; discriminate H|].
  split; [reflexivity|]. split; [reflexivity|]. split; [reflexivity|].
  intros H. specialize (H Dot2). revert H.
  rewrite emitted_displayBraillePattern.
  change (rev (display_out 1)) with [ServoWrite Dot1 ServoAngles.DOT1_UP; Delay 500].
  rewrite !elem_of_cons, elem_of_nil.
  intros [H|[H|[]]]; discriminate H.
Qed.

Lemma display_out_writes_members :
  Forall (λ n, ∀ d, writes_to d (rev (display_out n)) =
                    if bool_decide (d ∈ pattern_for n) then [up_angle d] else [])
    (seqZ 1 26).
Proof.
  cbv [seqZ Z.to_nat Pos.to_nat Pos.iter_op Nat.add seq fmap list_fmap
       Z.of_nat Pos.of_succ_nat Pos.succ Z.add Pos.add].
  repeat (constructor; [intros []; vm_compute; reflexivity|]). constructor.
Qed.

Lemma last_write_clear_display :
  Forall (λ n, ∀ d o, last_write d (display_out n ++ clear_out ++ o) =
                      Some (set_angle d (bool_decide (d ∈ pattern_for n))))
    (seqZ 1 26).
Proof.
  cbv [seqZ Z.to_nat Pos.to_nat Pos.iter_op Nat.add seq fmap list_fmap
       Z.of_nat Pos.of_succ_nat Pos.succ Z.add Pos.add].
  repeat (constructor; [intros [] o; vm_compute; reflexivity|]). constructor.
Qed.

(** C8, as the code has it.  For every letter index in [1,26],
    [displayBraillePattern] writes the raised angle, once, to each channel of
    the letter's pattern and makes no call to the other channels; preceded by
    [clearAllDots], as at each of its call sites, it leaves every one of the
    six channels last commanded to its membership in the pattern (raised for
    a member, lowered otherwise), whatever was commanded before. *)
Theorem clear_then_display_sets_all_six (n : Z) (s : State) (d : Dot) :
  1 ≤ n ≤ 26 →
  let member := bool_decide (d ∈ pattern_for n) in
  writes_to d (emitted_since s (exec (displayBraillePattern n) s)) =
    (if member then [up_angle d] else []) ∧
  returns ((clearAllDots;; displayBraillePattern n) s) = true ∧
  commanded (exec (clearAllDots;; displayBraillePattern n) s) d =
    Some (set_angle d member).
Proof.
  intros Hn member. subst member. split; [|split].
  - rewrite emitted_displayBraillePattern.
    apply (for_each_letter _ display_out_writes_members n Hn).
  - unfold mbind, M_bind. rewrite clearAllDots_frame.
    apply displayBraillePattern_returns.
  - unfold commanded, exec, mbind, M_bind.
    rewrite clearAllDots_frame, displayBraillePattern_frame. cbn [final out set_out].
    apply (for_each_letter _ last_write_clear_display n Hn).
Qed.

Lemma clear_then_display_sets_all_six_witness :
  let s_up := exec (setDot2 true) initial_state in
  1 ≤ 1 ≤ 26 ∧
  writes_to Dot2 (emitted_since s_up (exec (displayBraillePattern 1) s_up)) = [] ∧
  commanded (exec (clearAllDots;; displayBraillePattern 1) s_up) Dot2 =
    Some ServoAngles.DOT2_DOWN.
Proof.
  intros s_up.
  assert (H : 1 ≤ 1 ≤ 26) by lia.
  split; [exact H|].
  pose proof (clear_then_display_sets_all_six 1 s_up Dot2 H) as (Hw & _ & Hc).
  split; [exact Hw | exact Hc].
Defined.

(** Every render of the running device goes through [clearAllDots] first:
    after a navigation handler, all six channels are commanded to the pattern
    of the letter the handler moved to. *)
Lemma commanded_after_handleNextButton now s d :
  1 ≤ currentPosition s ≤ 26 →
  commanded (exec (handleNextButton now) s) d =
  Some (set_angle d (bool_decide (d ∈ pattern_for (next_position (currentPosition s))))).
Proof.
  intros Hp. unfold commanded, exec. rewrite handleNextButton_eq.
  unfold handler_out. cbn [final out app last_write]. rewrite <- !app_assoc.
  apply (for_each_letter _ last_write_clear_display), next_position_range, Hp.
Qed.

Lemma commanded_after_handlePreviousButton now s d :
  1 ≤ currentPosition s ≤ 26 →
  commanded (exec (handlePreviousButton now) s) d =
  Some (set_angle d (bool_decide (d ∈ pattern_for (prev_position (currentPosition s))))).
Proof.
  intros Hp. unfold commanded, exec. rewrite handlePreviousButton_eq.
  unfold handler_out. cbn [final out app last_write]. rewrite <- !app_assoc.
  apply (for_each_letter _ last_write_clear_display), prev_position_range, Hp.
Qed.

(** ** The debounce filter *)

Lemma isr_returns b now s : returns (isr b now s) = true.
Proof. rewrite isr_eq. reflexivity. Qed.

Lemma last_accepted_accept_edge b now s :
  last_accepted b (accept_edge b now s) = u32 now.
Proof. by destruct b. Qed.

Lemma pressed_accept_edge b now s : pressed b (accept_edge b now s) = true.
Proof. by destruct b. Qed.

Lemma accept_edge_other b b' now s :
  b' ≠ b →
  pressed b' (accept_edge b now s) = pressed b' s ∧
  last_accepted b' (accept_edge b now s) = last_accepted b' s.
Proof. by destruct b, b'. Qed.

(** Clock values a fixed distance apart stay that far apart on the 32-bit
    counter, also across its overflow. *)
Lemma sub32_later t dt : sub32 (u32 (t + dt)) (u32 t) = dt mod 2 ^ 32.
Proof.
  unfold sub32, u32. rewrite <- Zminus_mod. f_equal. lia.
Qed.

Lemma accepts_after_accepted b t dt s :
  accepts b (t + dt) (accept_edge b t s) =
  bool_decide (dt mod 2 ^ 32 > Settings.DEBOUNCE_DELAY).
Proof.
  unfold accepts. by rewrite last_accepted_accept_edge, sub32_later.
Qed.

(** Two edges of one button, the first of them accepted, [dt] apart. *)
Lemma accepted_edges_pair b t dt s :
  accepts b t s = true →
  accepted_edges b [t; t + dt] s =
  if bool_decide (dt mod 2 ^ 32 > Settings.DEBOUNCE_DELAY) then 2%nat else 1%nat.
Proof.
  intros Ha. cbn [accepted_edges]. rewrite exec_isr, Ha.
  rewrite accepts_after_accepted. by destruct (bool_decide _).
Qed.

(** C5, as the code has it.  The ISR of a button, run for an edge at clock
    value [t], sets the
    button's pending flag and stores [t] as its last accepted time exactly
    when [t] minus the stored time (on the 32-bit counter) exceeds the 250 ms
    window; otherwise it leaves the state as it was.  It never touches the
    other button's flag or time.  An edge 100 ms after an accepted edge is
    discarded, so the two count as one press; an edge 300 ms after an accepted
    edge is accepted, so the two count as two. *)
Theorem debounce_filter (b : Button) (t : Z) (s : State) :
  let s' := exec (isr b t) s in
  let elapsed := sub32 (u32 t) (last_accepted b s) in
  returns (isr b t s) = true ∧
  (elapsed > 250 → pressed b s' = true ∧ last_accepted b s' = u32 t) ∧
  (elapsed ≤ 250 → s' = s) ∧
  (∀ b', b' ≠ b →
     pressed b' s' = pressed b' s ∧ last_accepted b' s' = last_accepted b' s) ∧
  (elapsed > 250 →
     accepted_edges b [t; t + 100] s = 1%nat ∧
     accepted_edges b [t; t + 300] s = 2%nat).
Proof.
  intros s' elapsed. subst s'. rewrite exec_isr.
  assert (Hacc : accepts b t s = bool_decide (elapsed > 250)) by reflexivity.
  split; [apply isr_returns|]. split; [|split; [|split]].
  - intros H. rewrite Hacc, bool_decide_eq_true_2 by done.
    split; [apply pressed_accept_edge | apply last_accepted_accept_edge].
  - intros H. rewrite Hacc, bool_decide_eq_false_2 by lia. reflexivity.
  - intros b' Hb'. destruct (accepts b t s); [|done].
    by apply accept_edge_other.
  - intros H.
    assert (Ha : accepts b t s = true)
      by (rewrite Hacc; by apply bool_decide_eq_true_2).
    rewrite !accepted_edges_pair by done. split; reflexivity.
Qed.

Lemma debounce_filter_witness :
  let s := st started in
  sub32 (u32 7000) (last_accepted BtnNext s) > 250 ∧
  pressed BtnNext (exec (isr BtnNext 7000) s) = true ∧
  last_accepted BtnNext (exec (isr BtnNext 7000) s) = 7000 ∧
  accepted_edges BtnNext [7000; 7100] s = 1%nat ∧
  accepted_edges BtnNext [7000; 7300] s = 2%nat.
Proof.
  intros s.
  assert (H : sub32 (u32 7000) (last_accepted BtnNext s) > 250)
    by (vm_compute; reflexivity).
  pose proof (debounce_filter BtnNext 7000 s) as (_ & Hset & _ & _ & Hpair).
  split; [exact H|]. split; [exact (proj1 (Hset H))|].
  split; [exact (proj2 (Hset H))|]. exact (Hpair H).
Defined.

(** Against C5 as worded.  When the first of the two edges is itself
    discarded the examples fail.  From reset, where the stored time is 0,
    edges at 100 and 200 ms give no accepted edge and edges at 100 and 400 ms
    give one.  The same 100 ms after an accepted press: with NEXT accepted
    at 7000, edges at 7100 and 7200 give none and edges at 7100 and 7400 give
    one. *)
Lemma two_edge_examples_need_an_accepted_first_edge :
  let pressed_at_7000 := exec (isr BtnNext 7000) (st started) in
  accepted_edges BtnNext [100; 100 + 100] initial_state = 0%nat ∧
  accepted_edges BtnNext [100; 100 + 300] initial_state = 1%nat ∧
  ¬ two_edge_examples BtnNext 100 initial_state ∧
  accepts BtnNext 7000 (st started) = true ∧
  accepted_edges BtnNext [7100; 7100 + 100] pressed_at_7000 = 0%nat ∧
  accepted_edges BtnNext [7100; 7100 + 300] pressed_at_7000 = 1%nat ∧
  ¬ two_edge_examples BtnNext 7100 pressed_at_7000.
Proof.
  intros pressed_at_7000.
  split; [reflexivity|]. split; [reflexivity|].
  split; [intros [H _]; discriminate H|].
  split; [reflexivity|]. split; [reflexivity|]. split; [reflexivity|].
  intros [H _]. discriminate H.
Qed.

(** ** The display hold *)

Lemma ready_at_holding now s :
  isDisplayingPattern s = true →
  sub32 (u32 now) (lastActionTime s) < Settings.AUDIO_DISPLAY_DELAY →
  ready_at now s = false.
Proof.
  intros Hd Hlt. unfold ready_at. rewrite Hd. cbn.
  apply bool_decide_eq_false_2. lia.
Qed.

Lemma ready_at_elapsed now s :
  sub32 (u32 now) (lastActionTime s) >= Settings.AUDIO_DISPLAY_DELAY →
  ready_at now s = true.
Proof.
  intros Hge. unfold ready_at. rewrite bool_decide_eq_true_2 by done.
  apply orb_true_r.
Qed.

Lemma isr_frame b now s :
  let s' := exec (isr b now) s in
  isDisplayingPattern s' = isDisplayingPattern s ∧
  lastActionTime s' = lastActionTime s ∧
  currentPosition s' = currentPosition s ∧
  out s' = out s ∧
  nextISRAttached s' = nextISRAttached s ∧
  prevISRAttached s' = prevISRAttached s.
Proof. cbn. rewrite exec_isr. by destruct (accepts b now s), b. Qed.

Lemma pressed_isr_mono b b' now s :
  pressed b s = true → pressed b (exec (isr b' now) s) = true.
Proof.
  intros H. rewrite exec_isr. destruct (accepts b' now s); [|done].
  by destruct b, b'.
Qed.

Lemma step_during_hold last p e m :
  holding last p m → during_hold last e → holding last p (step e m).
Proof.
  intros [Hpc Hd Hl Hp] He. destruct e as [ok t|now tn tp|b t]; cbn.
  - rewrite Hpc. by constructor.
  - rewrite Hpc. cbn in He.
    assert (Hr : ready_at now (st m) = false)
      by (apply ready_at_holding; [done | by rewrite Hl]).
    rewrite loop_eq, Hr. by constructor.
  - destruct (attached b (st m)); [|by constructor].
    destruct (isr_frame b t (st m)) as (? & ? & ? & _).
    constructor; cbn; congruence.
Qed.

Lemma pressed_step_during_hold last p b e m :
  holding last p m → during_hold last e →
  pressed b (st m) = true → pressed b (st (step e m)) = true.
Proof.
  intros [Hpc Hd Hl Hp] He Hb. destruct e as [ok t|now tn tp|b' t]; cbn.
  - by rewrite Hpc.
  - rewrite Hpc. cbn in He.
    assert (Hr : ready_at now (st m) = false)
      by (apply ready_at_holding; [done | by rewrite Hl]).
    rewrite loop_eq, Hr. by destruct b.
  - destruct (attached b' (st m)); [|done]. by apply pressed_isr_mono.
Qed.

Lemma run_during_hold last p b es m :
  holding last p m → Forall (during_hold last) es →
  pressed b (st m) = true →
  holding last p (run es m) ∧ pressed b (st (run es m)) = true.
Proof.
  revert m. induction es as [|e es IH]; intros m Hm Hes Hb; [done|].
  inversion Hes as [|? ? He Hes']; subst. cbn. apply IH; [|done|].
  - by apply step_during_hold.
  - by eapply pressed_step_during_hold.
Qed.

Lemma pressed_take_flags b s : pressed b (take_flags s) = false.
Proof. by destruct b. Qed.

Lemma currentPosition_take_flags s :
  currentPosition (take_flags s) = currentPosition s.
Proof. reflexivity. Qed.

Lemma dispatch_frame n p tn tp s :
  let s' := exec (dispatch n p tn tp) s in
  nextButtonPressed s' = nextButtonPressed s ∧
  prevButtonPressed s' = prevButtonPressed s ∧
  currentPosition s' =
    (if p then prev_position else id)
      ((if n then next_position else id) (currentPosition s)).
Proof.
  cbn. unfold exec. rewrite dispatch_eq. cbn [final]. cbv zeta.
  unfold exec. destruct n, p;
    rewrite ?handleNextButton_eq; cbn [final];
    rewrite ?handlePreviousButton_eq; cbn [final]; done.
Qed.

Lemma step_poll_ready now tn tp m :
  pc m = InLoop → ready_at now (st m) = true →
  pc (step (Poll now tn tp) m) = InLoop ∧
  st (step (Poll now tn tp) m) =
    exec (dispatch (nextButtonPressed (st m)) (prevButtonPressed (st m)) tn tp)
      (take_flags (st m)).
Proof.
  intros Hpc Hr. unfold step. rewrite Hpc, loop_eq, Hr. unfold exec.
  rewrite dispatch_eq. split; reflexivity.
Qed.

(** C6. A press that the debounce filter accepts while a pattern is held is
    kept: through every event of the hold (further edges of either button,
    polls before the hold has run out) its pending flag stays set, the letter
    index does not move and the hold goes on; the first poll at which the
    hold has run out consumes the flag and calls the button's handler. *)
Theorem press_during_hold_is_deferred
    (m : Machine) (b : Button) (t : Z) (es : list Event) (now tn tp : Z) :
  pc m = InLoop →
  isDisplayingPattern (st m) = true →
  attached b (st m) = true →
  accepts b t (st m) = true →
  Forall (during_hold (lastActionTime (st m))) es →
  sub32 (u32 now) (lastActionTime (st m)) >= Settings.AUDIO_DISPLAY_DELAY →
  let pressed_at := step (Edge b t) m in
  let m1 := run es pressed_at in
  let m2 := step (Poll now tn tp) m1 in
  (∀ k, let mk := run (take k es) pressed_at in
        pressed b (st mk) = true ∧
        currentPosition (st mk) = currentPosition (st m) ∧
        isDisplayingPattern (st mk) = true) ∧
  pc m2 = InLoop ∧
  st m2 = exec (dispatch (nextButtonPressed (st m1)) (prevButtonPressed (st m1))
                  tn tp) (take_flags (st m1)) ∧
  pressed b (st m1) = true ∧
  pressed b (st m2) = false ∧
  currentPosition (st m2) =
    (if prevButtonPressed (st m1) then prev_position else id)
      ((if nextButtonPressed (st m1) then next_position else id)
         (currentPosition (st m))).
Proof.
  intros Hpc Hd Hatt Hacc Hes Hnow pressed_at m1 m2.
  set (last := lastActionTime (st m)) in *.
  set (p := currentPosition (st m)).
  assert (Hm : holding last p m) by by constructor.
  assert (Hedge : holding last p pressed_at)
    by (apply step_during_hold; [done | exact I]).
  assert (Hb : pressed b (st pressed_at) = true).
  { subst pressed_at. cbn. rewrite Hatt. cbn. rewrite exec_isr, Hacc.
    apply pressed_accept_edge. }
  assert (Hpre : ∀ es', Forall (during_hold last) es' →
            holding last p (run es' pressed_at) ∧
            pressed b (st (run es' pressed_at)) = true)
    by (intros es' Hes'; by apply run_during_hold).
  destruct (Hpre es Hes) as [[Hpc1 Hd1 Hl1 Hp1] Hb1]. fold m1 in Hpc1, Hd1, Hl1, Hp1, Hb1.
  assert (Hr : ready_at now (st m1) = true)
    by (apply ready_at_elapsed; by rewrite Hl1).
  destruct (step_poll_ready now tn tp m1 Hpc1 Hr) as [Hpc2 Hst2].
  fold m2 in Hpc2, Hst2.
  destruct (dispatch_frame (nextButtonPressed (st m1)) (prevButtonPressed (st m1))
              tn tp (take_flags (st m1))) as (Hn2 & Hp2 & Hc2).
  rewrite <- Hst2 in Hn2, Hp2, Hc2.
  split; [|repeat split; try done].
  - intros k mk. subst mk.
    destruct (Hpre (take k es)) as [[? ? ? ?] ?]; [by apply Forall_take|done].
  - destruct b; [exact Hn2 | exact Hp2].
  - rewrite Hc2, currentPosition_take_flags. by rewrite Hp1.
Qed.

Lemma press_during_hold_is_deferred_witness :
  let m1 := run hold_events (step (Edge BtnNext 6500) started) in
  pc started = InLoop ∧
  isDisplayingPattern (st started) = true ∧
  lastActionTime (st started) = 6000 ∧
  accepts BtnNext 6500 (st started) = true ∧
  Forall (during_hold (lastActionTime (st started))) hold_events ∧
  currentPosition (st m1) = 1 ∧
  nextButtonPressed (st m1) = true ∧
  currentPosition (st (step (Poll 8000 9000 10000) m1)) = 2 ∧
  nextButtonPressed (st (step (Poll 8000 9000 10000) m1)) = false.
Proof.
  intros m1.
  assert (Hes : Forall (during_hold (lastActionTime (st started))) hold_events).
  { repeat constructor; vm_compute; reflexivity. }
  assert (Hnow : sub32 (u32 8000) (lastActionTime (st started)) >=
                 Settings.AUDIO_DISPLAY_DELAY)
    by (vm_compute; discriminate).
  pose proof (press_during_hold_is_deferred started BtnNext 6500 hold_events
                8000 9000 10000 eq_refl eq_refl eq_refl eq_refl Hes Hnow)
    as (Hheld & _ & _ & Hb1 & Hb2 & Hc2).
  split; [reflexivity|]. split; [reflexivity|]. split; [reflexivity|].
  split; [reflexivity|]. split; [exact Hes|].
  split; [vm_compute; reflexivity|]. split; [exact Hb1|].
  split; [|exact Hb2].
  etransitivity; [exact Hc2|]. vm_compute. reflexivity.
Defined.

(** ** Presses between two polls *)

Lemma plays_app l k : plays (l ++ k) = plays l ++ plays k.
Proof. apply omap_app. Qed.

Lemma plays_rev l : plays (rev l) = rev (plays l).
Proof.
  induction l as [|o l IH]; [reflexivity|].
  cbn [rev]. rewrite plays_app, IH.
  destruct o; cbn; rewrite ?app_nil_r; reflexivity.
Qed.

Lemma plays_display_out n : plays (display_out n) = [].
Proof.
  destruct n as [|p|p]; [reflexivity| |reflexivity].
  do 5 (try destruct p as [p|p|]; try reflexivity).
Qed.

Lemma plays_cons_play n l : plays (DfPlay n :: l) = n :: plays l.
Proof. reflexivity. Qed.

Lemma plays_cons_delay ms l : plays (Delay ms :: l) = plays l.
Proof. reflexivity. Qed.

Lemma plays_handler_out label p : plays (handler_out label p) = [p].
Proof.
  unfold handler_out.
  rewrite plays_cons_play, !plays_app, plays_display_out. reflexivity.
Qed.

Lemma out_dispatch n p tn tp s :
  out (exec (dispatch n p tn tp) s) =
  dispatch_out n p (currentPosition s) ++ out s.
Proof.
  unfold exec. rewrite dispatch_eq. cbn [final]. cbv zeta. unfold exec, dispatch_out.
  destruct n, p;
    rewrite ?handleNextButton_eq; cbn [final];
    rewrite ?handlePreviousButton_eq; cbn [final out set_out currentPosition app];
    rewrite <- ?app_assoc, ?app_nil_r; reflexivity.
Qed.

Lemma plays_dispatch_out n p c :
  length (plays (dispatch_out n p c)) =
  ((if n then 1 else 0) + (if p then 1 else 0))%nat.
Proof.
  unfold dispatch_out. cbv zeta. rewrite plays_cons_delay, plays_app.
  destruct n, p; rewrite ?plays_handler_out; reflexivity.
Qed.

Lemma pressed_step_edge b b' t m :
  pressed b (st (step (Edge b' t) m)) =
  pressed b (st m) ||
  (bool_decide (b' = b) && attached b (st m) && accepts b t (st m)).
Proof.
  cbn. destruct (attached b' (st m)) eqn:Hatt.
  - cbn. rewrite exec_isr. destruct (decide (b' = b)) as [->|Hne].
    + rewrite Hatt, bool_decide_eq_true_2 by done. cbn.
      destruct (accepts b t (st m)); [|by rewrite orb_false_r].
      by rewrite pressed_accept_edge, orb_true_r.
    + rewrite (bool_decide_eq_false_2 _ Hne). cbn. rewrite orb_false_r.
      destruct (accepts b' t (st m)); [|done].
      by apply accept_edge_other.
  - destruct (decide (b' = b)) as [->|Hne].
    + by rewrite Hatt, andb_false_r, orb_false_r.
    + by rewrite (bool_decide_eq_false_2 _ Hne), orb_false_r.
Qed.

Lemma step_edge_frame b t m :
  let m' := step (Edge b t) m in
  pc m' = pc m ∧
  isDisplayingPattern (st m') = isDisplayingPattern (st m) ∧
  lastActionTime (st m') = lastActionTime (st m) ∧
  currentPosition (st m') = currentPosition (st m) ∧
  out (st m') = out (st m).
Proof.
  cbn. destruct (attached b (st m)); [|done]. cbn.
  destruct (isr_frame b t (st m)) as (? & ? & ? & ? & _). done.
Qed.

Lemma ready_at_frame now s s' :
  isDisplayingPattern s' = isDisplayingPattern s →
  lastActionTime s' = lastActionTime s →
  ready_at now s' = ready_at now s.
Proof. intros Hd Hl. unfold ready_at. by rewrite Hd, Hl. Qed.

Lemma between_polls_frame s s' e :
  isDisplayingPattern s' = isDisplayingPattern s →
  lastActionTime s' = lastActionTime s →
  between_polls s e → between_polls s' e.
Proof.
  intros Hd Hl. destruct e as [ok t|now tn tp|b t]; cbn; [done| |done].
  by rewrite (ready_at_frame now s s' Hd Hl).
Qed.

Lemma step_between_polls b e m :
  pc m = InLoop → between_polls (st m) e →
  let m' := step e m in
  pc m' = InLoop ∧
  isDisplayingPattern (st m') = isDisplayingPattern (st m) ∧
  lastActionTime (st m') = lastActionTime (st m) ∧
  currentPosition (st m') = currentPosition (st m) ∧
  pressed b (st m') =
    pressed b (st m) || bool_decide (0 < accepted_presses b [e] m)%nat.
Proof.
  intros Hpc He. cbv zeta. destruct e as [ok t|now tn tp|b' t]; [done| |].
  - cbn in He. cbn [step accepted_presses]. rewrite Hpc, loop_eq, He.
    cbn. by rewrite orb_false_r.
  - destruct (step_edge_frame b' t m) as (G1 & G2 & G3 & G4 & _).
    rewrite G1, G2, G3, G4, pressed_step_edge. repeat (split; [done|]).
    cbn [accepted_presses].
    by destruct (bool_decide (b' = b) && attached b (st m) && accepts b t (st m)).
Qed.

Lemma run_between_polls b es m :
  pc m = InLoop → Forall (between_polls (st m)) es →
  let m' := run es m in
  pc m' = InLoop ∧
  isDisplayingPattern (st m') = isDisplayingPattern (st m) ∧
  lastActionTime (st m') = lastActionTime (st m) ∧
  currentPosition (st m') = currentPosition (st m) ∧
  pressed b (st m') =
    pressed b (st m) || bool_decide (0 < accepted_presses b es m)%nat.
Proof.
  revert m. induction es as [|e es IH]; intros m Hpc Hes.
  { cbn. by rewrite orb_false_r. }
  inversion Hes as [|? ? He Hes']; subst.
  destruct (step_between_polls b e m Hpc He) as (G1 & G2 & G3 & G4 & G5).
  assert (Hes1 : Forall (between_polls (st (step e m))) es).
  { eapply Forall_impl; [exact Hes'|]. intros e'. by apply between_polls_frame. }
  destruct (IH (step e m) G1 Hes1) as (H1 & H2 & H3 & H4 & H5).
  cbv zeta in *.
  change (run (e :: es) m) with (run es (step e m)).
  rewrite H1, H2, H3, H4, H5, G2, G3, G4, G5.
  repeat (split; [reflexivity|]).
  assert (Hsum : accepted_presses b (e :: es) m =
                 (accepted_presses b [e] m + accepted_presses b es (step e m))%nat)
    by (cbn [accepted_presses]; lia).
  rewrite Hsum.
  destruct (pressed b (st m)); [done|]. cbn [orb].
  repeat case_bool_decide; try done; lia.
Qed.

(** C10. However many presses of a button its filter accepts between two
    polls of the flags, be it with any number of calls of [loop] that wait
    out a hold in between, the button's pending record is one boolean: it is
    set when at least one press was accepted (or was pending already).  The
    poll that follows calls each handler at most once (one NEXT transition if NEXT is
    pending, then one PREV transition if PREV is pending), asks for one audio
    track per handler called, and leaves both flags clear, so nothing of the
    other presses remains. *)
Theorem presses_between_polls_coalesce
    (m : Machine) (es : list Event) (now tn tp : Z) :
  pc m = InLoop →
  Forall (between_polls (st m)) es →
  let m1 := run es m in
  let m2 := step (Poll now tn tp) m1 in
  let kn := accepted_presses BtnNext es m in
  let kp := accepted_presses BtnPrev es m in
  let pn := nextButtonPressed (st m) || bool_decide (0 < kn)%nat in
  let pp := prevButtonPressed (st m) || bool_decide (0 < kp)%nat in
  ready_at now (st m1) = true →
  nextButtonPressed (st m1) = pn ∧
  prevButtonPressed (st m1) = pp ∧
  pc m2 = InLoop ∧
  st m2 = exec (dispatch pn pp tn tp) (take_flags (st m1)) ∧
  length (plays (emitted_since (st m1) (st m2))) =
    ((if pn then 1 else 0) + (if pp then 1 else 0))%nat ∧
  currentPosition (st m2) =
    (if pp then prev_position else id)
      ((if pn then next_position else id) (currentPosition (st m))) ∧
  nextButtonPressed (st m2) = false ∧
  prevButtonPressed (st m2) = false.
Proof.
  intros Hpc Hes m1 m2 kn kp pn pp Hr.
  destruct (run_between_polls BtnNext es m Hpc Hes) as (Hpc1 & _ & _ & Hc1 & Hn1).
  destruct (run_between_polls BtnPrev es m Hpc Hes) as (_ & _ & _ & _ & Hp1).
  fold m1 in Hpc1, Hc1, Hn1, Hp1. cbn [pressed] in Hn1, Hp1.
  fold kn pn in Hn1. fold kp pp in Hp1.
  destruct (step_poll_ready now tn tp m1 Hpc1 Hr) as [Hpc2 Hst2].
  fold m2 in Hpc2, Hst2. rewrite Hn1, Hp1 in Hst2.
  destruct (dispatch_frame pn pp tn tp (take_flags (st m1))) as (Hn2 & Hp2 & Hc2).
  rewrite <- Hst2 in Hn2, Hp2, Hc2.
  repeat (split; [done|]).
  split; [|split; [|done]].
  - erewrite emitted_since_app with
      (pre := dispatch_out pn pp (currentPosition (st m1)) ++ [Interrupts; NoInterrupts]).
    + rewrite plays_rev, length_rev, plays_app, length_app, plays_dispatch_out.
      cbn. lia.
    + rewrite Hst2, out_dispatch, <- app_assoc. reflexivity.
  - rewrite Hc2, currentPosition_take_flags. by rewrite Hc1.
Qed.

Lemma presses_between_polls_coalesce_witness :
  let m1 := run three_presses started in
  let m2 := step (Poll 8000 9000 10000) m1 in
  pc started = InLoop ∧
  Forall (between_polls (st started)) three_presses ∧
  ready_at 8000 (st m1) = true ∧
  accepted_presses BtnNext three_presses started = 3%nat ∧
  length (plays (emitted_since (st m1) (st m2))) = 1%nat ∧
  currentPosition (st m2) = 2 ∧
  nextButtonPressed (st m2) = false.
Proof.
  intros m1 m2.
  assert (Hes : Forall (between_polls (st started)) three_presses)
    by (repeat constructor).
  pose proof (presses_between_polls_coalesce started three_presses
                8000 9000 10000 eq_refl Hes eq_refl)
    as (_ & _ & _ & _ & Hplays & Hc & Hn & _).
  split; [reflexivity|]. split; [exact Hes|]. split; [reflexivity|].
  split; [reflexivity|]. split; [exact Hplays|].
  split; [|exact Hn].
  etransitivity; [exact Hc|]. vm_compute. reflexivity.
Defined.

(** ** Failure of the audio bring-up *)

(** Against C7 as worded.  [setup] calls [initializeButtons] before
    [initializeDFPlayer], and the halt loop does not mask interrupts: after a
    failed bring-up both ISRs are
    attached, and a press of NEXT one second into the halt runs
    [nextButtonISR], which sets the pending flag. *)
Lemma audio_failure_leaves_interrupts_live :
  let m := step (Boot false 0) boot_machine in
  pc m = Halted ∧
  AttachInterrupt Pins.BUTTON_NEXT BtnNext ∈ trace (st m) ∧
  AttachInterrupt Pins.BUTTON_PREV BtnPrev ∈ trace (st m) ∧
  nextButtonPressed (st m) = false ∧
  nextButtonPressed (st (step (Edge BtnNext 1000) m)) = true ∧
  ¬ interrupts_never_reached m.
Proof.
  intros m.
  split; [reflexivity|].
  split; [vm_compute; repeat (first [apply list_elem_of_here | apply list_elem_of_further])|].
  split; [vm_compute; repeat (first [apply list_elem_of_here | apply list_elem_of_further])|].
  split; [reflexivity|]. split; [reflexivity|].
  intros H. specialize (H BtnNext 1000).
  apply (f_equal (λ m, nextButtonPressed (st m))) in H. discriminate H.
Qed.

Lemma halted_quiet_after_failure now :
  halted_quiet (step (Boot false now) boot_machine).
Proof.
  cbn. rewrite setup_failed_eq. constructor; cbn; try reflexivity.
  - vm_compute. repeat (first [apply list_elem_of_here | apply list_elem_of_further]).
  - vm_compute. repeat constructor.
  - vm_compute. intros H.
    repeat (apply elem_of_cons in H as [H|H]; [discriminate H|]).
    by apply elem_of_nil in H.
Qed.

Lemma halted_quiet_step e m : halted_quiet m → halted_quiet (step e m).
Proof.
  intros [Hpc Hp Hd Hn Hv Hdiag Hq Hnp].
  destruct e as [ok t|now tn tp|b t]; cbn.
  - rewrite Hpc. by constructor.
  - rewrite Hpc. constructor; cbn; try done.
    + by apply list_elem_of_further.
    + by constructor.
    + intros H. apply elem_of_cons in H as [H|H]; [discriminate H|done].
  - destruct (attached b (st m)); [|by constructor].
    destruct (isr_frame b t (st m)) as (E1 & E2 & E3 & E4 & E5 & E6).
    constructor; cbn; congruence.
Qed.

Lemma halted_quiet_run es m : halted_quiet m → halted_quiet (run es m).
Proof.
  revert m. induction es as [|e es IH]; intros m Hm; [done|].
  cbn. apply IH. by apply halted_quiet_step.
Qed.

Lemma pressed_step_halted b e m :
  pc m = Halted → pressed b (st m) = true →
  pc (step e m) = Halted ∧ pressed b (st (step e m)) = true.
Proof.
  intros Hpc Hb. destruct e as [ok t|now tn tp|b' t]; cbn.
  - by rewrite Hpc.
  - rewrite Hpc. split; [done | by destruct b].
  - destruct (attached b' (st m)); [|done].
    split; [done | by apply pressed_isr_mono].
Qed.

Lemma pressed_run_halted b es m :
  pc m = Halted → pressed b (st m) = true → pressed b (st (run es m)) = true.
Proof.
  revert m. induction es as [|e es IH]; intros m Hpc Hb; [done|].
  destruct (pressed_step_halted b e m Hpc Hb) as [Hpc' Hb'].
  cbn. by apply IH.
Qed.

(** C7, as the code has it.  When [dfPlayer.begin] fails, [setup] does not
    return: it prints the diagnostic and enters the halt loop.  From then on,
    whatever events follow, the main thread stays in the halt loop, [loop]
    never polls, no servo is written, no track is played and the volume is
    never set, and the letter index stays 1 with no pattern on display.  The
    button interrupts were attached before the bring-up was tried and stay
    attached: an accepted press still sets its pending flag, which is then
    never cleared. *)
Theorem audio_failure_halts (now : Z) (es es' : list Event) (b : Button) :
  let m0 := step (Boot false now) boot_machine in
  let m := run es m0 in
  returns (setup false now initial_state) = false ∧
  SerialPrintln "✗ DFPlayer initialization failed!" ∈ trace (st m0) ∧
  pc m = Halted ∧
  (NoInterrupts ∉ trace (st m)) ∧
  (∀ o, o ∈ trace (st m) → is_rendering o = false) ∧
  currentPosition (st m) = 1 ∧
  isDisplayingPattern (st m) = false ∧
  attached b (st m) = true ∧
  (∀ t, accepts b t (st m) = true →
        pressed b (st (run es' (step (Edge b t) m))) = true).
Proof.
  intros m0 m.
  pose proof (halted_quiet_after_failure now) as H0. fold m0 in H0.
  pose proof (halted_quiet_run es m0 H0) as [Hpc Hp Hd Hn Hv Hdiag Hq Hnp].
  fold m in Hpc, Hp, Hd, Hn, Hv, Hdiag, Hq, Hnp.
  split; [by rewrite setup_failed_eq|].
  split.
  { destruct H0 as [_ _ _ _ _ H _ _]. unfold trace.
    apply list_elem_of_In, in_rev. rewrite rev_involutive.
    by apply list_elem_of_In. }
  split; [exact Hpc|].
  split.
  { unfold trace. intros H. apply Hnp.
    apply list_elem_of_In, in_rev in H. by apply list_elem_of_In. }
  split.
  { intros o Ho. unfold trace in Ho.
    apply list_elem_of_In, in_rev in Ho. apply list_elem_of_In in Ho.
    rewrite Forall_forall in Hq. by apply Hq. }
  split; [exact Hp|]. split; [exact Hd|].
  split; [by destruct b|].
  intros t Hacc. apply pressed_run_halted.
  - cbn. by destruct (attached b (st m)).
  - cbn. replace (attached b (st m)) with true by (by destruct b).
    cbn. rewrite exec_isr, Hacc. apply pressed_accept_edge.
Qed.

(** A failed start followed by two turns of the halt loop; NEXT is pressed
    one second in and the halt loop goes on. *)
Lemma audio_failure_halts_witness :
  let m := run [Poll 0 0 0; Poll 0 0 0] (step (Boot false 0) boot_machine) in
  pc m = Halted ∧
  accepts BtnNext 1000 (st m) = true ∧
  pressed BtnNext
    (st (run [Poll 0 0 0; Edge BtnNext 1100; Poll 0 0 0]
           (step (Edge BtnNext 1000) m))) = true.
Proof.
  intros m.
  pose proof (audio_failure_halts 0 [Poll 0 0 0; Poll 0 0 0]
                [Poll 0 0 0; Edge BtnNext 1100; Poll 0 0 0] BtnNext)
    as (_ & _ & Hpc & _ & _ & _ & _ & _ & Hb).
  split; [exact Hpc|]. split; [reflexivity|]. exact (Hb 1000 eq_refl).
Defined.

(** ** The pattern on display *)

(** At the first render of [setup] the channels have been cleared too, some
    calls earlier. *)
Lemma last_write_display_out :
  Forall (λ n, ∀ d o, last_write d (display_out n ++ o) =
                      if bool_decide (d ∈ pattern_for n)
                      then Some (up_angle d) else last_write d o)
    (seqZ 1 26).
Proof.
  cbv [seqZ Z.to_nat Pos.to_nat Pos.iter_op Nat.add seq fmap list_fmap
       Z.of_nat Pos.of_succ_nat Pos.succ Z.add Pos.add].
  repeat (constructor; [intros [] o; vm_compute; reflexivity|]). constructor.
Qed.

Lemma commanded_after_setup now s d :
  1 ≤ currentPosition s ≤ 26 →
  commanded (final (setup true now s)) d =
  Some (set_angle d (bool_decide (d ∈ pattern_for (currentPosition s)))).
Proof.
  intros Hp. rewrite setup_ok_eq. unfold commanded. cbn [final out last_write].
  rewrite (for_each_letter _ last_write_display_out _ Hp).
  destruct (bool_decide _); [reflexivity|]. by destruct d.
Qed.

Lemma shows_current_letter_frame s s' :
  currentPosition s' = currentPosition s →
  (∀ d, last_write d (out s') = last_write d (out s)) →
  shows_current_letter s → shows_current_letter s'.
Proof.
  intros Hc Ho H d. unfold commanded. rewrite Ho, Hc. apply H.
Qed.

Lemma shows_current_letter_delay ms s :
  shows_current_letter s → shows_current_letter (set_out (Delay ms :: out s) s).
Proof. by apply shows_current_letter_frame. Qed.

(** X1.  Whenever the main thread of the running device is between two calls
    of [loop] ([setup] has returned, no handler is under way), whatever polls
    and button edges came before, the pattern commanded on the six channels
    is that of the current letter: each render goes through [clearAllDots]
    and then [displayBraillePattern].  Inside a handler, between the change
    of the index and the end of the render, the two differ. *)
Lemma running_device_shows_current_letter m :
  reachable m → pc m = InLoop → shows_current_letter (st m).
Proof.
  revert m.
  apply (reachable_ind (λ m, pc m = InLoop → shows_current_letter (st m)));
    cbn beta; [discriminate|].
  intros m e Hm IH. pose proof (reachable_range m Hm) as Hp.
  destruct e as [ok t|now tn tp|b t]; cbn.
  - destruct (pc m) eqn:Hpc; [|congruence|by intros _; apply IH].
    destruct ok; [|by rewrite setup_failed_eq].
    intros _ d. rewrite st_after_main, commanded_after_setup by done.
    by rewrite currentPosition_setup.
  - destruct (pc m) eqn:Hpc; [congruence|done|]. specialize (IH eq_refl).
    rewrite loop_eq. destruct (ready_at now (st m)).
    + rewrite dispatch_eq. intros _. cbn [after_main st]. cbv zeta.
      set (s0 := take_flags (st m)).
      assert (H0 : shows_current_letter s0) by (by apply (shows_current_letter_frame (st m))).
      assert (Hp0 : 1 ≤ currentPosition s0 ≤ 26) by done.
      destruct (nextButtonPressed (st m)), (prevButtonPressed (st m));
        cbv iota; apply shows_current_letter_delay.
      * intros d. rewrite commanded_after_handlePreviousButton
          by (rewrite currentPosition_handleNextButton; by apply next_position_range).
        by rewrite currentPosition_handlePreviousButton.
      * intros d. rewrite commanded_after_handleNextButton by done.
        by rewrite currentPosition_handleNextButton.
      * intros d. rewrite commanded_after_handlePreviousButton by done.
        by rewrite currentPosition_handlePreviousButton.
      * exact H0.
    + intros _. by apply (shows_current_letter_frame (st m)).
  - destruct (attached b (st m)); [|done]. intros Hpc. specialize (IH Hpc).
    destruct (isr_frame b t (st m)) as (_ & _ & Hc & Ho & _).
    apply (shows_current_letter_frame (st m)); [done | | done].
    intros d. cbn. by rewrite Ho.
Qed.

(** * Further properties of the sketch *)

(** ** The record of hardware calls, event by event *)

Lemma out_step e m : out (st (step e m)) = step_out e m ++ out (st m).
Proof.
  unfold step_out. destruct e as [ok t|now tn tp|b t]; cbn [step].
  - destruct (pc m); [|reflexivity..].
    destruct ok; [rewrite setup_ok_eq | rewrite setup_failed_eq];
      cbn [after_main st out app]; rewrite <- ?app_assoc; reflexivity.
  - destruct (pc m); [reflexivity..|].
    rewrite loop_eq. destruct (ready_at now (st m)); [|reflexivity].
    rewrite st_after_main.
    change (final (dispatch ?n ?p tn tp ?s)) with (exec (dispatch n p tn tp) s).
    rewrite out_dispatch, <- app_assoc. reflexivity.
  - destruct (attached b (st m)); [|reflexivity].
    destruct (isr_frame b t (st m)) as (_ & _ & _ & Ho & _). exact Ho.
Qed.

Lemma reachable_at_boot m : reachable m → pc m = AtBoot → m = boot_machine.
Proof.
  revert m.
  apply (reachable_ind (λ m, pc m = AtBoot → m = boot_machine));
    cbn beta; [done|].
  intros m e _ IH. destruct e as [ok t|now tn tp|b t]; cbn.
  - destruct (pc m) eqn:Hpc; [|congruence..].
    destruct ok; [by rewrite setup_ok_eq | by rewrite setup_failed_eq].
  - destruct (pc m) eqn:Hpc; [by auto|done|].
    rewrite loop_eq. destruct (ready_at now (st m)); [|done].
    by rewrite dispatch_eq.
  - destruct (attached b (st m)) eqn:Hatt; [|done].
    cbn. intros Hpc. specialize (IH Hpc). subst m. destruct b; discriminate Hatt.
Qed.

Lemma wf_display_out n : forallb wf_call (display_out n) = true.
Proof.
  destruct n as [|p|p]; [reflexivity| |reflexivity].
  do 5 (try destruct p as [p|p|]; try reflexivity).
Qed.

Lemma wf_handler_out label p :
  1 ≤ p ≤ 26 → forallb wf_call (handler_out label p) = true.
Proof.
  intros Hp. unfold handler_out. cbn [forallb wf_call].
  rewrite !forallb_app, wf_display_out.
  rewrite bool_decide_eq_true_2 by (unfold Settings.INTRO_AUDIO_TRACK; lia).
  reflexivity.
Qed.

Lemma wf_dispatch_out n p c :
  1 ≤ c ≤ 26 → forallb wf_call (dispatch_out n p c) = true.
Proof.
  intros Hc. unfold dispatch_out. cbv zeta.
  change (forallb wf_call (Delay 10 :: ?l)) with (forallb wf_call l).
  rewrite forallb_app.
  pose proof (next_position_range _ Hc) as Hn.
  pose proof (prev_position_range _ Hc) as Hv.
  pose proof (prev_position_range _ Hn) as Hvn.
  destruct n, p; cbv iota; rewrite ?wf_handler_out by assumption; reflexivity.
Qed.

Lemma wf_step_out e m :
  reachable m → forallb wf_call (step_out e m) = true.
Proof.
  intros Hm. pose proof (reachable_range m Hm) as Hp.
  unfold step_out. cbv zeta. destruct e as [ok t|now tn tp|b t]; [| |done].
  - destruct (pc m) eqn:Hpc; [|done..].
    rewrite (reachable_at_boot m Hm Hpc). by destruct ok.
  - destruct (pc m); [done..|].
    destruct (ready_at now (st m)); [|done].
    rewrite forallb_app, wf_dispatch_out by done. reflexivity.
Qed.

Lemma reachable_calls_wf m : reachable m → forallb wf_call (out (st m)) = true.
Proof.
  revert m. apply reachable_ind; [reflexivity|].
  intros m e Hm IH. by rewrite out_step, forallb_app, wf_step_out, IH.
Qed.

(** X4.  In every state the device can reach, every servo write in the record
    carries one of that channel's two calibrated angles, every track asked
    of the DFPlayer is one of the files 1 to 27, and the only volume ever
    set is the configured level. *)
Theorem hardware_calls_stay_in_range (m : Machine) (o : Out) :
  reachable m →
  o ∈ trace (st m) →
  match o with
  | ServoWrite d a => a = up_angle d ∨ a = down_angle d
  | DfPlay n => 1 ≤ n ≤ 27
  | DfVolume v => v = 25
  | _ => True
  end.
Proof.
  intros Hm Ho. unfold trace in Ho.
  apply list_elem_of_In, in_rev in Ho.
  pose proof (reachable_calls_wf m Hm) as Hwf.
  rewrite forallb_forall in Hwf. specialize (Hwf o Ho).
  destruct o; try done; cbn in Hwf.
  - apply orb_true_iff in Hwf as [H|H]; apply bool_decide_eq_true_1 in H; auto.
  - by apply bool_decide_eq_true_1 in Hwf.
  - by apply bool_decide_eq_true_1 in Hwf.
Qed.

Lemma hardware_calls_stay_in_range_witness :
  let m := run [Boot true 0; Edge BtnPrev 7000; Poll 7005 8005 9005] boot_machine in
  reachable m ∧
  DfPlay 26 ∈ trace (st m) ∧
  1 ≤ 26 ≤ 27.
Proof.
  intros m.
  assert (Hm : reachable m)
    by (exists [Boot true 0; Edge BtnPrev 7000; Poll 7005 8005 9005]; reflexivity).
  assert (Ho : DfPlay 26 ∈ trace (st m)).
  { vm_compute. repeat (first [apply list_elem_of_here | apply list_elem_of_further]). }
  split; [exact Hm|]. split; [exact Ho|].
  exact (hardware_calls_stay_in_range m (DfPlay 26) Hm Ho).
Defined.

(** ** What the audio module is asked to do *)

Lemma volume_calls_app l k : volume_calls (l ++ k) = volume_calls l ++ volume_calls k.
Proof. apply omap_app. Qed.

Lemma volume_calls_display_out n : volume_calls (display_out n) = [].
Proof.
  destruct n as [|p|p]; [reflexivity| |reflexivity].
  do 5 (try destruct p as [p|p|]; try reflexivity).
Qed.

Lemma volume_calls_handler_out label p : volume_calls (handler_out label p) = [].
Proof.
  unfold handler_out.
  change (volume_calls (DfPlay p :: ?l)) with (volume_calls l).
  rewrite !volume_calls_app, volume_calls_display_out. reflexivity.
Qed.

Lemma volume_calls_dispatch_out n p c : volume_calls (dispatch_out n p c) = [].
Proof.
  unfold dispatch_out. cbv zeta.
  change (volume_calls (Delay 10 :: ?l)) with (volume_calls l).
  rewrite volume_calls_app.
  destruct n, p; cbv iota; rewrite ?volume_calls_handler_out; reflexivity.
Qed.

Lemma plays_dispatch_out_list n p c :
  plays (dispatch_out n p c) =
  let c1 := if n then next_position c else c in
  let c2 := if p then prev_position c1 else c1 in
  (if p then [c2] else []) ++ (if n then [c1] else []).
Proof.
  unfold dispatch_out. cbv zeta. rewrite plays_cons_delay, plays_app.
  destruct n, p; rewrite ?plays_handler_out; reflexivity.
Qed.

(** The audio calls in the record of a running device, newest first: the
    letters navigated to, then the first letter, then the introduction. *)
Lemma audio_history m :
  reachable m → pc m = InLoop →
  ∃ ls, plays (out (st m)) = ls ++ [1; 27] ∧
        Forall (λ n, 1 ≤ n ≤ 26) ls ∧
        head (ls ++ [1]) = Some (currentPosition (st m)) ∧
        volume_calls (out (st m)) = [25].
Proof.
  revert m.
  apply (reachable_ind (λ m, pc m = InLoop → ∃ ls, _)); cbn beta; [discriminate|].
  intros m e Hm IH Hpc'. pose proof (reachable_range m Hm) as Hp.
  rewrite out_step. revert Hpc'. unfold step_out.
  destruct e as [ok t|now tn tp|b t]; cbn [step].
  - destruct (pc m) eqn:Hpc; intros Hpc'.
    + rewrite (reachable_at_boot m Hm Hpc) in *.
      destruct ok; [|by rewrite setup_failed_eq in Hpc'].
      exists []. rewrite setup_ok_eq. cbn [after_main st currentPosition].
      split; [reflexivity|]. split; [constructor|]. split; reflexivity.
    + congruence.
    + destruct (IH eq_refl) as (ls & ? & ? & ? & ?). by exists ls.
  - destruct (pc m) eqn:Hpc; intros Hpc'; [congruence|done|].
    destruct (IH eq_refl) as (ls & Hpl & Hls & Hhd & Hvol).
    rewrite loop_eq, st_after_main.
    destruct (ready_at now (st m)); [|by exists ls].
    change (final (dispatch ?n ?p tn tp ?s)) with (exec (dispatch n p tn tp) s).
    destruct (dispatch_frame (nextButtonPressed (st m)) (prevButtonPressed (st m))
                tn tp (take_flags (st m))) as (_ & _ & ->).
    rewrite currentPosition_take_flags, <- app_assoc, plays_app, volume_calls_app.
    rewrite plays_dispatch_out_list, volume_calls_dispatch_out. cbv zeta.
    pose proof (next_position_range _ Hp) as Hn.
    pose proof (prev_position_range _ Hp) as Hv.
    pose proof (prev_position_range _ Hn) as Hvn.
    rewrite plays_app, volume_calls_app, Hpl, Hvol. cbn [plays volume_calls omap app].
    destruct (nextButtonPressed (st m)), (prevButtonPressed (st m)); cbn [app id].
    + exists (prev_position (next_position (currentPosition (st m))) ::
              next_position (currentPosition (st m)) :: ls).
      split; [reflexivity|].
      split; [repeat (apply Forall_cons_2; [assumption|]); assumption|].
      split; reflexivity.
    + exists (next_position (currentPosition (st m)) :: ls).
      split; [reflexivity|].
      split; [repeat (apply Forall_cons_2; [assumption|]); assumption|].
      split; reflexivity.
    + exists (prev_position (currentPosition (st m)) :: ls).
      split; [reflexivity|].
      split; [repeat (apply Forall_cons_2; [assumption|]); assumption|].
      split; reflexivity.
    + by exists ls.
  - intros Hpc'.
    assert (Hpc : pc m = InLoop) by (by destruct (attached b (st m))).
    destruct (IH Hpc) as (ls & Hpl & Hls & Hhd & Hvol).
    exists ls. cbn [app]. repeat split; try done.
    destruct (attached b (st m)); [|done].
    cbn [st]. by rewrite currentPosition_isr.
Qed.

Lemma last_rev {A} (l : list A) : last (rev l) = head l.
Proof. destruct l as [|a l]; [reflexivity|]. cbn [rev]. apply last_snoc. Qed.

Lemma volume_calls_rev l : volume_calls (rev l) = rev (volume_calls l).
Proof.
  induction l as [|o l IH]; [reflexivity|].
  cbn [rev]. rewrite volume_calls_app, IH.
  destruct o; cbn; rewrite ?app_nil_r; reflexivity.
Qed.

(** X2.  Whenever the main thread of the running device is between two calls
    of [loop] ([setup] has returned, no handler is under way), the track last
    asked of the DFPlayer is the track of the current letter.  Inside a
    handler the index changes before the track is asked for. *)
Theorem last_track_is_current_letter (m : Machine) :
  reachable m → pc m = InLoop →
  last (plays (trace (st m))) = Some (currentPosition (st m)).
Proof.
  intros Hm Hpc.
  destruct (audio_history m Hm Hpc) as (ls & Hpl & _ & Hhd & _).
  unfold trace. rewrite plays_rev, last_rev, Hpl.
  by destruct ls.
Qed.

Lemma last_track_is_current_letter_witness :
  let m := run [Boot true 0; Edge BtnNext 7000; Poll 7005 8005 0] boot_machine in
  reachable m ∧ pc m = InLoop ∧
  currentPosition (st m) = 2 ∧
  last (plays (trace (st m))) = Some 2.
Proof.
  intros m.
  assert (Hm : reachable m)
    by (exists [Boot true 0; Edge BtnNext 7000; Poll 7005 8005 0]; reflexivity).
  split; [exact Hm|]. split; [reflexivity|]. split; [reflexivity|].
  exact (last_track_is_current_letter m Hm eq_refl).
Defined.

(** X3.  Over the whole life of the running device the volume has been set once,
    to 25, the introduction (track 27) was the first track asked for and was
    asked for once, the track of letter A came second, and every track after
    it is a letter's, 1 to 26. *)
Theorem introduction_once_then_letters (m : Machine) :
  reachable m → pc m = InLoop →
  ∃ letters,
    plays (trace (st m)) = 27 :: 1 :: letters ∧
    Forall (λ n, 1 ≤ n ≤ 26) letters ∧
    volume_calls (trace (st m)) = [25].
Proof.
  intros Hm Hpc.
  destruct (audio_history m Hm Hpc) as (ls & Hpl & Hls & _ & Hvol).
  exists (rev ls). unfold trace.
  rewrite plays_rev, volume_calls_rev, Hpl, Hvol, rev_app_distr.
  split; [reflexivity|]. split; [|reflexivity].
  by apply Forall_rev.
Qed.

Lemma introduction_once_then_letters_witness :
  let m := run [Boot true 0; Edge BtnNext 7000; Poll 7005 8005 0] boot_machine in
  reachable m ∧ pc m = InLoop ∧
  plays (trace (st m)) = [27; 1; 2] ∧
  ∃ letters, plays (trace (st m)) = 27 :: 1 :: letters ∧
             Forall (λ n, 1 ≤ n ≤ 26) letters ∧
             volume_calls (trace (st m)) = [25].
Proof.
  intros m.
  assert (Hm : reachable m)
    by (exists [Boot true 0; Edge BtnNext 7000; Poll 7005 8005 0]; reflexivity).
  split; [exact Hm|]. split; [reflexivity|]. split; [reflexivity|].
  exact (introduction_once_then_letters m Hm eq_refl).
Defined.

(** The state reached by one press of NEXT after the first hold shows the
    pattern of B on the six channels. *)
Lemma running_device_shows_current_letter_witness :
  let m := run [Boot true 0; Edge BtnNext 7000; Poll 7005 8005 0] boot_machine in
  reachable m ∧ pc m = InLoop ∧
  currentPosition (st m) = 2 ∧
  shows_current_letter (st m).
Proof.
  intros m.
  assert (Hm : reachable m)
    by (exists [Boot true 0; Edge BtnNext 7000; Poll 7005 8005 0]; reflexivity).
  split; [exact Hm|]. split; [reflexivity|]. split; [reflexivity|].
  exact (running_device_shows_current_letter m Hm eq_refl).
Defined.

(** ** The pattern table of [displayBraillePattern] *)

Lemma raises_eq n s : raises n s = raised_by_display n.
Proof. unfold raises. by rewrite emitted_displayBraillePattern. Qed.

Lemma display_out_out_of_range n :
  n < 1 ∨ 26 < n → display_out n = [Delay 500].
Proof.
  intros H. destruct n as [|p|p]; [reflexivity| |reflexivity].
  do 6 (try destruct p as [p|p|]; try reflexivity; try lia).
Qed.

(** X14.  Outside the letters the switch of [displayBraillePattern] has no case:
    for an index below 1 or above 26 the call returns after its 500 ms delay
    without a single servo write, and every channel stays as commanded. *)
Theorem displayBraillePattern_out_of_range (n : Z) (s : State) (d : Dot) :
  n < 1 ∨ 26 < n →
  returns (displayBraillePattern n s) = true ∧
  emitted_since s (exec (displayBraillePattern n) s) = [Delay 500] ∧
  raises n s = ∅ ∧
  commanded (exec (displayBraillePattern n) s) d = commanded s d.
Proof.
  intros H. pose proof (display_out_out_of_range n H) as Hout.
  split; [apply displayBraillePattern_returns|].
  split; [by rewrite emitted_displayBraillePattern, Hout|].
  split; [unfold raises; by rewrite emitted_displayBraillePattern, Hout|].
  unfold commanded, exec. rewrite displayBraillePattern_frame, Hout. reflexivity.
Qed.

Lemma displayBraillePattern_out_of_range_witness :
  let s := exec (setDot2 true) initial_state in
  (27 < 1 ∨ 26 < 27) ∧
  emitted_since s (exec (displayBraillePattern 27) s) = [Delay 500] ∧
  commanded (exec (displayBraillePattern 27) s) Dot2 = Some ServoAngles.DOT2_UP.
Proof.
  intros s.
  assert (H : 27 < 1 ∨ 26 < 27) by lia.
  pose proof (displayBraillePattern_out_of_range 27 s Dot2 H) as (_ & He & _ & Hc).
  split; [exact H|]. split; [exact He | exact Hc].
Defined.

Lemma cells_distinct :
  Forall (λ n, Forall (λ m, cell (raised_by_display n) = cell (raised_by_display m)
                            → n = m) (seqZ 1 26)) (seqZ 1 26).
Proof. compute_done. Qed.

Lemma cells_not_blank :
  Forall (λ n, cell (raised_by_display n) ≠ cell ∅) (seqZ 1 26).
Proof. compute_done. Qed.

(** X15.  Every letter has a cell of its own: for an index in [1,26]
    [displayBraillePattern] raises at least one dot, so the cell differs from
    the blank one [clearAllDots] leaves, and two indices whose calls raise the
    same dots are the same index. *)
Theorem letters_have_distinct_patterns (n m : Z) (s s' : State) :
  1 ≤ n ≤ 26 → 1 ≤ m ≤ 26 →
  raises n s ≠ ∅ ∧
  (raises n s = raises m s' → n = m).
Proof.
  intros Hn Hm. rewrite !raises_eq. split.
  - intros He. apply (for_each_letter _ cells_not_blank n Hn). by rewrite He.
  - intros He.
    pose proof (for_each_letter _ cells_distinct n Hn) as H.
    rewrite Forall_forall in H. apply (H m); [by apply letter_cases|].
    by rewrite He.
Qed.

Lemma letters_have_distinct_patterns_witness :
  1 ≤ 9 ≤ 26 ∧ 1 ≤ 5 ≤ 26 ∧
  raises 9 initial_state ≠ ∅ ∧
  (raises 9 initial_state = raises 5 initial_state → 9 = 5).
Proof.
  assert (H9 : 1 ≤ 9 ≤ 26) by lia. assert (H5 : 1 ≤ 5 ≤ 26) by lia.
  split; [exact H9|]. split; [exact H5|].
  exact (letters_have_distinct_patterns 9 5 initial_state initial_state H9 H5).
Defined.

Lemma second_decade :
  Forall (λ n, raised_by_display (n + 10) = raised_by_display n ∪ {[Dot3]} ∧
               (Dot3 ∉ raised_by_display n) ∧ (Dot6 ∉ raised_by_display n))
    (seqZ 1 10).
Proof. compute_done. Qed.

Lemma third_decade :
  Forall (λ n, raised_by_display (if bool_decide (n ≤ 2) then n + 20 else n + 21) =
               raised_by_display n ∪ {[Dot3; Dot6]})
    (seqZ 1 5).
Proof. compute_done. Qed.

(** X16.  The table of [displayBraillePattern] has the build of the Braille
    alphabet.  The letters A to J use the upper four dots only; K to T are A
    to J with dot 3 added; U, V, X, Y, Z are A to E with dots 3 and 6 added;
    and W, which stands outside the scheme, is J with dot 6 added. *)
Theorem braille_decades (n : Z) (s : State) :
  1 ≤ n ≤ 10 →
  (Dot3 ∉ raises n s) ∧ (Dot6 ∉ raises n s) ∧
  raises (n + 10) s = raises n s ∪ {[Dot3]} ∧
  (n ≤ 5 → raises (if bool_decide (n ≤ 2) then n + 20 else n + 21) s =
           raises n s ∪ {[Dot3; Dot6]}) ∧
  raises 23 s = raises 10 s ∪ {[Dot6]}.
Proof.
  intros Hn. rewrite !raises_eq.
  assert (Hin : n ∈ seqZ 1 10) by (apply elem_of_seqZ; lia).
  pose proof second_decade as H2. rewrite Forall_forall in H2.
  destruct (H2 n Hin) as (He & H3 & H6).
  split; [exact H3|]. split; [exact H6|]. split; [exact He|].
  split; [|vm_compute; reflexivity].
  intros H5.
  assert (Hin5 : n ∈ seqZ 1 5) by (apply elem_of_seqZ; lia).
  pose proof third_decade as Ht. rewrite Forall_forall in Ht. exact (Ht n Hin5).
Qed.

Lemma braille_decades_witness :
  1 ≤ 4 ≤ 10 ∧
  raises 14 initial_state = raises 4 initial_state ∪ {[Dot3]} ∧
  raises 25 initial_state = raises 4 initial_state ∪ {[Dot3; Dot6]}.
Proof.
  assert (H : 1 ≤ 4 ≤ 10) by lia.
  pose proof (braille_decades 4 initial_state H) as (_ & _ & He & Ht & _).
  split; [exact H|]. split; [exact He|]. apply Ht. lia.
Defined.

(** ** Navigation as arithmetic modulo 26 *)

Lemma next_prev_position p : 1 ≤ p ≤ 26 → next_position (prev_position p) = p.
Proof.
  intros Hp. rewrite next_position_letter by (by apply prev_position_range).
  rewrite prev_position_letter by done. repeat case_decide; lia.
Qed.

(** X12.  On a letter index in [1,26], NEXT and PREV undo each other, in either
    order: after the two handler calls the index is what it was, and the six
    channels are commanded to that letter's pattern again. *)
Theorem next_and_previous_undo_each_other (s : State) (t1 t2 : Z) (d : Dot) :
  1 ≤ currentPosition s ≤ 26 →
  let there_and_back := exec (handlePreviousButton t2) (exec (handleNextButton t1) s) in
  let back_and_there := exec (handleNextButton t2) (exec (handlePreviousButton t1) s) in
  let shown := Some (set_angle d (bool_decide (d ∈ pattern_for (currentPosition s)))) in
  currentPosition there_and_back = currentPosition s ∧
  currentPosition back_and_there = currentPosition s ∧
  commanded there_and_back d = shown ∧
  commanded back_and_there d = shown.
Proof.
  intros Hp there back shown. subst there back shown.
  pose proof (next_position_range _ Hp) as Hn.
  pose proof (prev_position_range _ Hp) as Hv.
  rewrite commanded_after_handlePreviousButton, commanded_after_handleNextButton
    by (rewrite ?currentPosition_handleNextButton,
          ?currentPosition_handlePreviousButton; assumption).
  rewrite !currentPosition_handlePreviousButton, !currentPosition_handleNextButton,
    currentPosition_handlePreviousButton.
  rewrite prev_next_position, next_prev_position by done. done.
Qed.

Lemma next_and_previous_undo_each_other_witness :
  let s := set_currentPosition 26 initial_state in
  1 ≤ currentPosition s ≤ 26 ∧
  currentPosition (exec (handleNextButton 100) s) = 1 ∧
  currentPosition (exec (handlePreviousButton 200) (exec (handleNextButton 100) s)) = 26.
Proof.
  intros s.
  assert (H : 1 ≤ currentPosition s ≤ 26) by (cbn; lia).
  split; [exact H|]. split; [reflexivity|].
  exact (proj1 (next_and_previous_undo_each_other s 100 200 Dot1 H)).
Defined.

Lemma iter_next_position k p :
  1 ≤ p ≤ 26 →
  Nat.iter k next_position p = (p - 1 + Z.of_nat k) mod 26 + 1.
Proof.
  intros Hp. induction k as [|k IH].
  - change (Nat.iter 0 next_position p) with p. rewrite Z.mod_small; lia.
  - rewrite Nat.iter_succ, IH, Nat2Z.inj_succ.
    rewrite next_position_letter by (Z.div_mod_to_equations; lia).
    case_decide; Z.div_mod_to_equations; lia.
Qed.

Lemma iter_prev_position k p :
  1 ≤ p ≤ 26 →
  Nat.iter k prev_position p = (p - 1 - Z.of_nat k) mod 26 + 1.
Proof.
  intros Hp. induction k as [|k IH].
  - change (Nat.iter 0 prev_position p) with p. rewrite Z.mod_small; lia.
  - rewrite Nat.iter_succ, IH, Nat2Z.inj_succ.
    rewrite prev_position_letter by (Z.div_mod_to_equations; lia).
    case_decide; Z.div_mod_to_equations; lia.
Qed.

(** X13.  Any number of consecutive transitions is a shift modulo 26: from a letter
    index [p] in [1,26], [k] calls of [handleNextButton] all return and end at
    [(p - 1 + k) mod 26 + 1], and [k] calls of [handlePreviousButton] at
    [(p - 1 - k) mod 26 + 1]. *)
Theorem position_after_presses (s : State) (nows : list Z) :
  1 ≤ currentPosition s ≤ 26 →
  let k := Z.of_nat (length nows) in
  (returns (repeat_handler handleNextButton nows s) = true ∧
   currentPosition (exec (repeat_handler handleNextButton nows) s) =
     (currentPosition s - 1 + k) mod 26 + 1) ∧
  (returns (repeat_handler handlePreviousButton nows s) = true ∧
   currentPosition (exec (repeat_handler handlePreviousButton nows) s) =
     (currentPosition s - 1 - k) mod 26 + 1).
Proof.
  intros Hp k. subst k.
  destruct (repeat_next nows s) as [Hrn Hn].
  destruct (repeat_prev nows s) as [Hrp Hv].
  rewrite Hn, Hv, iter_next_position, iter_prev_position by done. done.
Qed.

Lemma position_after_presses_witness :
  let s := set_currentPosition 25 initial_state in
  1 ≤ currentPosition s ≤ 26 ∧
  currentPosition (exec (repeat_handler handleNextButton [10; 20; 30]) s) = 2 ∧
  currentPosition (exec (repeat_handler handlePreviousButton [10; 20; 30]) s) = 22.
Proof.
  intros s.
  assert (H : 1 ≤ currentPosition s ≤ 26) by (cbn; lia).
  pose proof (position_after_presses s [10; 20; 30] H) as [[_ Hn] [_ Hv]].
  split; [exact H|]. split; [exact Hn | exact Hv].
Defined.

(** ** The debounce records under everything else the device does *)

Lemma loop_isr_frame b now tn tp s :
  let s' := final (loop now tn tp s) in
  last_accepted b s' = last_accepted b s ∧
  attached b s' = attached b s ∧
  pressed b s' = (if ready_at now s then false else pressed b s).
Proof.
  cbv zeta. rewrite loop_eq. destruct (ready_at now s); [|by destruct b].
  rewrite dispatch_eq. cbn [final]. cbv zeta. unfold exec.
  destruct (nextButtonPressed s), (prevButtonPressed s);
    rewrite ?handleNextButton_eq; cbn [final];
    rewrite ?handlePreviousButton_eq; cbn [final]; by destruct b.
Qed.

Lemma setup_isr_frame b ok now s :
  let s' := final (setup ok now s) in
  last_accepted b s' = last_accepted b s ∧
  attached b s' = true ∧
  pressed b s' = pressed b s.
Proof.
  cbv zeta. destruct ok; [rewrite setup_ok_eq | rewrite setup_failed_eq];
    by destruct b.
Qed.

Lemma step_no_edge_frame b e m :
  no_edge_of b e →
  let m' := step e m in
  last_accepted b (st m') = last_accepted b (st m) ∧
  (attached b (st m) = true → attached b (st m') = true) ∧
  (pressed b (st m) = false → pressed b (st m') = false).
Proof.
  intros He. cbv zeta. destruct e as [ok t|now tn tp|b' t]; cbn [step].
  - destruct (pc m); [|done..]. rewrite st_after_main.
    destruct (setup_isr_frame b ok t (st m)) as (-> & -> & ->). done.
  - destruct (pc m); [done|by destruct b|]. rewrite st_after_main.
    destruct (loop_isr_frame b now tn tp (st m)) as (-> & -> & ->).
    by destruct (ready_at now (st m)).
  - cbn in He. destruct (attached b' (st m)); [|done]. cbn [st].
    rewrite exec_isr. destruct (accepts b' t (st m)); [|done].
    assert (Hne : b ≠ b') by congruence.
    destruct (accept_edge_other b' b t (st m) Hne) as [-> ->].
    split; [done|]. split; [|done]. by destruct b, b'.
Qed.

Lemma run_no_edge_frame b es m :
  Forall (no_edge_of b) es →
  let m' := run es m in
  last_accepted b (st m') = last_accepted b (st m) ∧
  (attached b (st m) = true → attached b (st m') = true) ∧
  (pressed b (st m) = false → pressed b (st m') = false).
Proof.
  cbv zeta. revert m. induction es as [|e es IH]; intros m Hes; [done|].
  inversion Hes as [|? ? He Hes']; subst.
  destruct (step_no_edge_frame b e m He) as (Hl & Ha & Hp).
  destruct (IH (step e m) Hes') as (Hl' & Ha' & Hp').
  change (run (e :: es) m) with (run es (step e m)).
  rewrite Hl', Hl. auto.
Qed.

(** X10.  Contact bounce is filtered whatever else goes on.  Once the ISR of a
    button has accepted an edge at clock value [t], then through any polls
    and any edges of the other button the stored time stays [t], and a
    further edge of the same button [dt] ms later is accepted exactly when
    [dt], counted on the 32-bit clock, exceeds 250; a discarded edge leaves
    the whole device as it was.  The clock passing through its overflow in
    between changes nothing. *)
Theorem bounce_is_filtered_across_events
    (m : Machine) (b : Button) (t dt : Z) (es : list Event) :
  attached b (st m) = true →
  accepts b t (st m) = true →
  Forall (no_edge_of b) es →
  let m1 := run es (step (Edge b t) m) in
  last_accepted b (st m1) = u32 t ∧
  accepts b (t + dt) (st m1) = bool_decide (dt mod 2 ^ 32 > 250) ∧
  (dt mod 2 ^ 32 ≤ 250 → step (Edge b (t + dt)) m1 = m1).
Proof.
  intros Hatt Hacc Hes m1.
  assert (H0 : last_accepted b (st (step (Edge b t) m)) = u32 t ∧
               attached b (st (step (Edge b t) m)) = true).
  { cbn [step]. rewrite Hatt. cbn [st]. rewrite exec_isr, Hacc.
    split; [apply last_accepted_accept_edge | by destruct b]. }
  destruct H0 as [Hl0 Ha0].
  destruct (run_no_edge_frame b es (step (Edge b t) m) Hes) as (Hl & Ha & _).
  fold m1 in Hl, Ha. rewrite Hl0 in Hl. specialize (Ha Ha0).
  assert (Hacc1 : accepts b (t + dt) (st m1) = bool_decide (dt mod 2 ^ 32 > 250)).
  { unfold accepts. by rewrite Hl, sub32_later. }
  split; [exact Hl|]. split; [exact Hacc1|].
  intros Hdt. cbn [step]. rewrite Ha, exec_isr, Hacc1.
  rewrite bool_decide_eq_false_2 by lia. by destruct m1.
Qed.

Lemma bounce_is_filtered_across_events_witness :
  let m1 := run [Poll 6505 0 0; Edge BtnPrev 6550; Poll 6600 0 0]
              (step (Edge BtnNext 6500) started) in
  attached BtnNext (st started) = true ∧
  accepts BtnNext 6500 (st started) = true ∧
  accepts BtnNext (6500 + 120) (st m1) = false ∧
  step (Edge BtnNext (6500 + 120)) m1 = m1 ∧
  accepts BtnNext (6500 + 251) (st m1) = true.
Proof.
  intros m1.
  assert (Hes : Forall (no_edge_of BtnNext)
                  [Poll 6505 0 0; Edge BtnPrev 6550; Poll 6600 0 0])
    by (repeat constructor; discriminate).
  pose proof (bounce_is_filtered_across_events started BtnNext 6500 120 _
                eq_refl eq_refl Hes) as (_ & Hrej & Hsame).
  pose proof (bounce_is_filtered_across_events started BtnNext 6500 251 _
                eq_refl eq_refl Hes) as (_ & Hacc & _).
  split; [reflexivity|]. split; [reflexivity|].
  split; [exact Hrej|]. split; [apply Hsame; vm_compute; discriminate|].
  exact Hacc.
Defined.

Lemma accepted_presses_cons b e es m :
  accepted_presses b (e :: es) m =
  ((if accepted_edge b e m then 1 else 0) + accepted_presses b es (step e m))%nat.
Proof. by destruct e. Qed.

Lemma step_unaccepted_frame b e m :
  accepted_edge b e m = false →
  last_accepted b (st (step e m)) = last_accepted b (st m) ∧
  (pressed b (st m) = false → pressed b (st (step e m)) = false).
Proof.
  intros Hacc.
  assert (Hother : no_edge_of b e →
            last_accepted b (st (step e m)) = last_accepted b (st m) ∧
            (pressed b (st m) = false → pressed b (st (step e m)) = false)).
  { intros He. destruct (step_no_edge_frame b e m He) as (? & _ & ?). done. }
  destruct e as [ok t|now tn tp|b' t]; [by apply Hother..|].
  destruct (decide (b' = b)) as [->|Hne]; [|by apply Hother].
  cbn [accepted_edge] in Hacc. rewrite bool_decide_eq_true_2 in Hacc by done.
  cbn [step andb] in *. destruct (attached b (st m)); [|done].
  cbn [andb st] in *. by rewrite exec_isr, Hacc.
Qed.

Lemma run_unaccepted_frame b es m :
  accepted_presses b es m = 0%nat →
  last_accepted b (st (run es m)) = last_accepted b (st m) ∧
  (pressed b (st m) = false → pressed b (st (run es m)) = false).
Proof.
  revert m. induction es as [|e es IH]; intros m Hk; [done|].
  rewrite accepted_presses_cons in Hk.
  assert (Hacc : accepted_edge b e m = false)
    by (destruct (accepted_edge b e m); [lia|done]).
  rewrite Hacc in Hk.
  destruct (step_unaccepted_frame b e m Hacc) as [Hl Hp].
  destruct (IH (step e m) Hk) as [Hl' Hp'].
  change (run (e :: es) m) with (run es (step e m)).
  rewrite Hl', Hl. auto.
Qed.

(** X11.  Both stored times start at 0 and only an accepted edge moves them.
    So until a button's first accepted edge, that is, as long as none of its
    edges since power-up has been accepted (discarded ones there may be) and
    whatever else has happened, its stored time is 0 and its flag clear, and
    its filter compares the clock itself with the window: an edge sets the
    flag exactly when the ISR is attached and the clock reads more than 250.
    A press in the first 250 ms of the clock is discarded. *)
Theorem first_press_after_power_up (b : Button) (t : Z) (es : list Event) :
  accepted_presses b es boot_machine = 0%nat →
  let m := run es boot_machine in
  last_accepted b (st m) = 0 ∧
  pressed b (st m) = false ∧
  pressed b (st (step (Edge b t) m)) =
    attached b (st m) && bool_decide (u32 t > 250).
Proof.
  intros Hes m.
  destruct (run_unaccepted_frame b es boot_machine Hes) as (Hl & Hp).
  fold m in Hl, Hp.
  assert (Hl0 : last_accepted b (st m) = 0) by (rewrite Hl; by destruct b).
  assert (Hp0 : pressed b (st m) = false) by (apply Hp; by destruct b).
  split; [exact Hl0|]. split; [exact Hp0|].
  cbn [step]. destruct (attached b (st m)); [|by rewrite Hp0].
  cbn [st andb]. rewrite exec_isr. unfold accepts. rewrite Hl0.
  assert (Hsub : sub32 (u32 t) 0 = u32 t).
  { unfold sub32, u32. rewrite Z.sub_0_r. apply Z.mod_mod. done. }
  rewrite Hsub. unfold Settings.DEBOUNCE_DELAY.
  destruct (bool_decide (u32 t > 250)); [apply pressed_accept_edge | exact Hp0].
Qed.

(** After a start-up, a press of NEXT discarded at 100 ms and a press of PREV
    accepted at 300 ms: NEXT is still discarded at 200 and accepted at 251. *)
Lemma first_press_after_power_up_witness :
  let es := [Boot true 0; Edge BtnNext 100; Edge BtnPrev 300] in
  let m := run es boot_machine in
  accepted_presses BtnNext es boot_machine = 0%nat ∧
  accepted_presses BtnPrev es boot_machine = 1%nat ∧
  pressed BtnNext (st (step (Edge BtnNext 200) m)) = false ∧
  pressed BtnNext (st (step (Edge BtnNext 251) m)) = true.
Proof.
  intros es m.
  assert (Hes : accepted_presses BtnNext es boot_machine = 0%nat) by reflexivity.
  split; [exact Hes|]. split; [reflexivity|].
  split.
  - exact (proj2 (proj2 (first_press_after_power_up BtnNext 200 es Hes))).
  - exact (proj2 (proj2 (first_press_after_power_up BtnNext 251 es Hes))).
Defined.

(** ** The main loop between transitions *)

Lemma out_loop now tn tp s :
  out (exec (loop now tn tp) s) =
  (if ready_at now s
   then dispatch_out (nextButtonPressed s) (prevButtonPressed s) (currentPosition s)
        ++ [Interrupts; NoInterrupts]
   else [Delay 10]) ++ out s.
Proof.
  unfold exec. rewrite loop_eq. destruct (ready_at now s); [|reflexivity].
  change (final (dispatch ?n ?p tn tp ?s)) with (exec (dispatch n p tn tp) s).
  rewrite out_dispatch, <- app_assoc. reflexivity.
Qed.

(** X8.  The hold lasts 2000 ms on the 32-bit clock.  After a navigation
    handler that read the clock at [t], a call of [loop] that reads it [dt]
    ms later does one of two things.  While [dt], counted modulo 2^32, is
    below 2000 it only waits its 10 ms and leaves the flags, the letter and
    the hold as they are.  Once it has reached 2000 the call ends the hold,
    reads and clears both flags with interrupts masked and runs the handlers
    of the pending buttons, NEXT before PREV.  The clock overflowing during
    the hold neither shortens nor lengthens it. *)
Theorem hold_lasts_two_seconds (next : bool) (s : State) (t dt tn tp : Z) :
  let h := if next then handleNextButton else handlePreviousButton in
  let s1 := exec (h t) s in
  let s2 := exec (loop (t + dt) tn tp) s1 in
  isDisplayingPattern s1 = true ∧
  lastActionTime s1 = u32 t ∧
  (dt mod 2 ^ 32 < 2000 → s2 = exec (delay 10) s1) ∧
  (dt mod 2 ^ 32 >= 2000 →
   s2 = exec (dispatch (nextButtonPressed s) (prevButtonPressed s) tn tp)
          (take_flags s1) ∧
   emitted_since s1 (take_flags s1) = [NoInterrupts; Interrupts] ∧
   nextButtonPressed s2 = false ∧
   prevButtonPressed s2 = false ∧
   isDisplayingPattern s2 = nextButtonPressed s || prevButtonPressed s ∧
   currentPosition s2 =
     (if prevButtonPressed s then prev_position else id)
       ((if nextButtonPressed s then next_position else id)
          (currentPosition s1))).
Proof.
  intros h s1 s2.
  assert (Hs1 : isDisplayingPattern s1 = true ∧ lastActionTime s1 = u32 t ∧
                nextButtonPressed s1 = nextButtonPressed s ∧
                prevButtonPressed s1 = prevButtonPressed s).
  { subst s1 h. unfold exec. destruct next;
      [rewrite handleNextButton_eq | rewrite handlePreviousButton_eq]; done. }
  destruct Hs1 as (Hd & Hl & Hn & Hp).
  assert (Hr : ready_at (t + dt) s1 = bool_decide (dt mod 2 ^ 32 >= 2000)).
  { unfold ready_at. by rewrite Hd, Hl, sub32_later. }
  split; [exact Hd|]. split; [exact Hl|]. split.
  - intros Hdt. subst s2. unfold exec at 1. rewrite loop_eq, Hr.
    by rewrite bool_decide_eq_false_2 by lia.
  - intros Hdt.
    assert (Hs2 : s2 = exec (dispatch (nextButtonPressed s) (prevButtonPressed s)
                               tn tp) (take_flags s1)).
    { subst s2. unfold exec at 1. rewrite loop_eq, Hr.
      rewrite bool_decide_eq_true_2 by done. by rewrite Hn, Hp. }
    destruct (dispatch_frame (nextButtonPressed s) (prevButtonPressed s) tn tp
                (take_flags s1)) as (Hn2 & Hp2 & Hc2).
    rewrite <- Hs2 in Hn2, Hp2, Hc2.
    split; [exact Hs2|].
    split; [by apply (emitted_since_app s1 (take_flags s1) [Interrupts; NoInterrupts])|].
    split; [exact Hn2|]. split; [exact Hp2|]. split; [|exact Hc2].
    rewrite Hs2. unfold exec. rewrite dispatch_eq. cbn [final]. cbv zeta.
    unfold exec.
    destruct (nextButtonPressed s), (prevButtonPressed s);
      rewrite ?handleNextButton_eq; cbn [final];
      rewrite ?handlePreviousButton_eq; reflexivity.
Qed.

Lemma hold_lasts_two_seconds_witness :
  let near_overflow := 2 ^ 32 - 500 in
  let s := set_nextButtonPressed true initial_state in
  let s1 := exec (handleNextButton near_overflow) s in
  (1999 mod 2 ^ 32 < 2000) ∧
  (2000 mod 2 ^ 32 >= 2000) ∧
  currentPosition s1 = 2 ∧
  exec (loop (near_overflow + 1999) 0 0) s1 = exec (delay 10) s1 ∧
  currentPosition (exec (loop (near_overflow + 2000) 0 0) s1) = 3 ∧
  nextButtonPressed (exec (loop (near_overflow + 2000) 0 0) s1) = false.
Proof.
  intros near_overflow s s1.
  assert (H : 1999 mod 2 ^ 32 < 2000) by (vm_compute; reflexivity).
  assert (H' : 2000 mod 2 ^ 32 >= 2000) by (vm_compute; discriminate).
  pose proof (hold_lasts_two_seconds true s near_overflow 1999 0 0)
    as (_ & _ & Hwait & _).
  pose proof (hold_lasts_two_seconds true s near_overflow 2000 0 0)
    as (_ & _ & _ & Hpoll).
  destruct (Hpoll H') as (_ & _ & Hn & _ & _ & Hc).
  split; [exact H|]. split; [exact H'|]. split; [reflexivity|].
  split; [exact (Hwait H)|]. split; [|exact Hn].
  etransitivity; [exact Hc|]. vm_compute. reflexivity.
Defined.

(** X7.  Without a pending press [loop] does nothing to the device: whatever the
    clock reads, the letter index, the time of the last action and the
    debounce records are unchanged, no servo is written and no track is
    played; the only effect is that the hold ends once 2000 ms have passed. *)
Theorem loop_without_press_is_quiet (s : State) (now tn tp : Z) :
  nextButtonPressed s = false →
  prevButtonPressed s = false →
  let s' := exec (loop now tn tp) s in
  returns (loop now tn tp s) = true ∧
  currentPosition s' = currentPosition s ∧
  lastActionTime s' = lastActionTime s ∧
  nextButtonPressed s' = false ∧ prevButtonPressed s' = false ∧
  isDisplayingPattern s' = negb (ready_at now s) ∧
  rendering_calls (emitted_since s s') = [] ∧
  (∀ d, commanded s' d = commanded s d).
Proof.
  intros Hn Hp s'.
  assert (Hout : out s' = (if ready_at now s
                           then [Delay 10; Interrupts; NoInterrupts]
                           else [Delay 10]) ++ out s).
  { subst s'. rewrite out_loop, Hn, Hp. by destruct (ready_at now s). }
  split; [apply loop_returns|].
  assert (Hs' : currentPosition s' = currentPosition s ∧
                lastActionTime s' = lastActionTime s ∧
                nextButtonPressed s' = false ∧ prevButtonPressed s' = false ∧
                isDisplayingPattern s' = negb (ready_at now s)).
  { subst s'. unfold exec. rewrite loop_eq.
    destruct (ready_at now s) eqn:Hr.
    - rewrite dispatch_eq, Hn, Hp. done.
    - cbn. unfold ready_at in Hr. apply orb_false_iff in Hr as [Hr _].
      rewrite Hn, Hp. by destruct (isDisplayingPattern s). }
  destruct Hs' as (? & ? & ? & ? & ?). repeat (split; [done|]).
  split.
  - erewrite emitted_since_app by exact Hout. by destruct (ready_at now s).
  - intros d. unfold commanded. rewrite Hout. by destruct (ready_at now s).
Qed.

Lemma loop_without_press_is_quiet_witness :
  let s' := exec (loop 9000 0 0) (st started) in
  nextButtonPressed (st started) = false ∧
  prevButtonPressed (st started) = false ∧
  currentPosition s' = 1 ∧
  isDisplayingPattern s' = false ∧
  rendering_calls (emitted_since (st started) s') = [].
Proof.
  intros s'.
  pose proof (loop_without_press_is_quiet (st started) 9000 0 0 eq_refl eq_refl)
    as (_ & Hc & _ & _ & _ & Hd & Hq & _).
  split; [reflexivity|]. split; [reflexivity|].
  split; [exact Hc|]. split; [exact Hd | exact Hq].
Defined.

(** X6.  A pending press is never dropped.  If an event of the device finds a
    button's flag set and leaves it clear, the event was a call of [loop]
    that polled, and that call ran the handlers of the pending buttons, the
    button's own among them: one track was asked for per pending button and
    the device is holding the new pattern. *)
Theorem pending_flag_cleared_only_by_its_handler
    (m : Machine) (e : Event) (b : Button) :
  pressed b (st m) = true →
  pressed b (st (step e m)) = false →
  ∃ now tn tp,
    e = Poll now tn tp ∧
    pc m = InLoop ∧
    ready_at now (st m) = true ∧
    st (step e m) =
      exec (dispatch (nextButtonPressed (st m)) (prevButtonPressed (st m)) tn tp)
        (take_flags (st m)) ∧
    length (plays (emitted_since (st m) (st (step e m)))) =
      ((if nextButtonPressed (st m) then 1 else 0) +
       (if prevButtonPressed (st m) then 1 else 0))%nat ∧
    isDisplayingPattern (st (step e m)) = true.
Proof.
  intros Hb Hb'. destruct e as [ok t|now tn tp|b' t].
  - exfalso. revert Hb'. cbn [step]. destruct (pc m); [|intros; congruence..].
    rewrite st_after_main.
    destruct (setup_isr_frame b ok t (st m)) as (_ & _ & ->). intros; congruence.
  - exists now, tn, tp. revert Hb'. cbn [step].
    destruct (pc m) eqn:Hpc;
      [intros; congruence|destruct b; cbn in *; intros; congruence|].
    rewrite st_after_main.
    destruct (loop_isr_frame b now tn tp (st m)) as (_ & _ & ->).
    destruct (ready_at now (st m)) eqn:Hr; [intros _|intros; congruence].
    assert (Hst : final (loop now tn tp (st m)) =
                  exec (dispatch (nextButtonPressed (st m))
                          (prevButtonPressed (st m)) tn tp) (take_flags (st m)))
      by (by rewrite loop_eq, Hr).
    repeat (split; [done|]). rewrite Hst. split.
    + erewrite emitted_since_app with
        (pre := dispatch_out (nextButtonPressed (st m)) (prevButtonPressed (st m))
                  (currentPosition (st m)) ++ [Interrupts; NoInterrupts]).
      * rewrite plays_rev, length_rev, plays_app, length_app, plays_dispatch_out.
        cbn. lia.
      * rewrite out_dispatch, <- app_assoc. reflexivity.
    + unfold exec. rewrite dispatch_eq. cbn [final]. cbv zeta. unfold exec.
      destruct b; cbn [pressed] in Hb; rewrite Hb;
        destruct (nextButtonPressed (st m)), (prevButtonPressed (st m));
        try discriminate Hb;
        rewrite ?handleNextButton_eq; cbn [final];
        rewrite ?handlePreviousButton_eq; reflexivity.
  - exfalso. revert Hb'. cbn [step].
    destruct (attached b' (st m)); [|intros; congruence].
    cbn [st]. by rewrite pressed_isr_mono.
Qed.

Lemma pending_flag_cleared_only_by_its_handler_witness :
  let m := step (Edge BtnPrev 6500) started in
  pressed BtnPrev (st m) = true ∧
  pressed BtnPrev (st (step (Poll 8000 0 9000) m)) = false ∧
  currentPosition (st (step (Poll 8000 0 9000) m)) = 26 ∧
  ∃ now tn tp,
    Poll 8000 0 9000 = Poll now tn tp ∧
    pc m = InLoop ∧
    ready_at now (st m) = true ∧
    st (step (Poll 8000 0 9000) m) =
      exec (dispatch (nextButtonPressed (st m)) (prevButtonPressed (st m)) tn tp)
        (take_flags (st m)) ∧
    length (plays (emitted_since (st m) (st (step (Poll 8000 0 9000) m)))) =
      ((if nextButtonPressed (st m) then 1 else 0) +
       (if prevButtonPressed (st m) then 1 else 0))%nat ∧
    isDisplayingPattern (st (step (Poll 8000 0 9000) m)) = true.
Proof.
  intros m.
  split; [reflexivity|]. split; [reflexivity|]. split; [reflexivity|].
  exact (pending_flag_cleared_only_by_its_handler m (Poll 8000 0 9000) BtnPrev
           eq_refl eq_refl).
Defined.

(** ** Time spent waiting, and the start-up sequence *)

Lemma total_delay_app l k : total_delay (l ++ k) = total_delay l + total_delay k.
Proof.
  induction l as [|o l IH]; [reflexivity|].
  cbn [app total_delay foldr]. fold (total_delay (l ++ k)) (total_delay l).
  rewrite IH. destruct o; lia.
Qed.

Lemma total_delay_rev l : total_delay (rev l) = total_delay l.
Proof.
  induction l as [|o l IH]; [reflexivity|].
  cbn [rev]. rewrite total_delay_app, IH.
  cbn [total_delay foldr]. fold (total_delay l). destruct o; lia.
Qed.

Lemma total_delay_display_out n : total_delay (display_out n) = 500.
Proof.
  destruct n as [|p|p]; [reflexivity| |reflexivity].
  do 5 (try destruct p as [p|p|]; try reflexivity).
Qed.

Lemma total_delay_handler_out label p : total_delay (handler_out label p) = 1000.
Proof.
  unfold handler_out.
  change (total_delay (DfPlay p :: ?l)) with (total_delay l).
  rewrite !total_delay_app, total_delay_display_out. reflexivity.
Qed.

Lemma total_delay_dispatch_out n p c :
  total_delay (dispatch_out n p c) =
  10 + (if n then 1000 else 0) + (if p then 1000 else 0).
Proof.
  unfold dispatch_out. cbv zeta.
  change (total_delay (Delay 10 :: ?l)) with (10 + total_delay l).
  rewrite total_delay_app.
  destruct n, p; cbv iota; rewrite ?total_delay_handler_out; reflexivity.
Qed.

(** X9.  How long one call of [loop] keeps the main thread: its 10 ms tick, and
    one second (the two 500 ms settle delays of clear and render) for each
    handler it runs; so 10 ms while the pattern is held or nothing is
    pending, 1010 ms for one press, 2010 ms when both buttons are pending.
    The time is the same for every letter. *)
Theorem loop_blocking_time (s : State) (now tn tp : Z) :
  total_delay (emitted_since s (exec (loop now tn tp) s)) =
  10 + (if ready_at now s
        then (if nextButtonPressed s then 1000 else 0) +
             (if prevButtonPressed s then 1000 else 0)
        else 0).
Proof.
  erewrite emitted_since_app by apply out_loop.
  rewrite total_delay_rev. destruct (ready_at now s); [|reflexivity].
  rewrite total_delay_app, total_delay_dispatch_out. cbn. lia.
Qed.

(** X17.  A successful [setup], from any state: it returns, having set the volume,
    lowered all six dots, asked for the introduction (track 27), rendered the
    current letter and asked for its track, in that order, after 6000 ms of
    delays in all; both ISRs are attached, the hold runs from the clock value
    read at the end, and the letter index and the pending flags are as they
    were. *)
Theorem setup_success_sequence (s : State) (now : Z) :
  let s' := exec (setup true now) s in
  let p := currentPosition s in
  returns (setup true now s) = true ∧
  rendering_calls (emitted_since s s') =
    DfVolume 25 :: map (λ d, ServoWrite d (down_angle d)) all_dots ++
    DfPlay 27 ::
    rendering_calls (emitted_since s (exec (displayBraillePattern p) s)) ++
    [DfPlay p] ∧
  total_delay (emitted_since s s') = 6000 ∧
  isDisplayingPattern s' = true ∧
  lastActionTime s' = u32 now ∧
  nextISRAttached s' = true ∧ prevISRAttached s' = true ∧
  currentPosition s' = p ∧
  nextButtonPressed s' = nextButtonPressed s ∧
  prevButtonPressed s' = prevButtonPressed s.
Proof.
  intros s' p.
  pose proof (setup_ok_eq now s) as Hret.
  assert (Hs' : s' = final (setup true now s)) by reflexivity.
  clearbody s'. rewrite Hret in Hs' |- *. cbn [final] in Hs'. subst s' p.
  split; [reflexivity|].
  rewrite emitted_displayBraillePattern.
  erewrite emitted_since_app with
    (pre := DfPlay (currentPosition s) :: display_out (currentPosition s) ++
            intro_out ++ bringup_out)
    by (cbn [out app]; rewrite <- !app_assoc; reflexivity).
  split; [|split; [|done]].
  - cbn [rev]. rewrite !rev_app_distr. unfold rendering_calls.
    rewrite !filter_app, <- !app_assoc. reflexivity.
  - rewrite total_delay_rev.
    change (total_delay (DfPlay ?x :: ?l)) with (total_delay l).
    rewrite !total_delay_app, total_delay_display_out. reflexivity.
Qed.

(** ** No letter without a press *)

Lemma plays_step_out e m :
  length (plays (step_out e m)) =
  match e with
  | Boot ok _ => match pc m with AtBoot => if ok then 2 else 0 | _ => 0 end
  | Poll now _ _ =>
      match pc m with
      | InLoop =>
          if ready_at now (st m)
          then (if nextButtonPressed (st m) then 1 else 0) +
               (if prevButtonPressed (st m) then 1 else 0)
          else 0
      | _ => 0
      end
  | Edge _ _ => 0
  end%nat.
Proof.
  unfold step_out. cbv zeta. destruct e as [ok t|now tn tp|b t]; [| |done].
  - destruct (pc m); [|done..]. destruct ok; [|done].
    rewrite plays_cons_play, !plays_app, plays_display_out. reflexivity.
  - destruct (pc m); [done..|]. destruct (ready_at now (st m)); [|done].
    rewrite plays_app, length_app, plays_dispatch_out. cbn. lia.
Qed.

Lemma pc_after_setup ok now s :
  pc (after_main (setup ok now s)) = if ok then InLoop else Halted.
Proof.
  destruct ok; [rewrite setup_ok_eq | rewrite setup_failed_eq]; reflexivity.
Qed.

Lemma pc_after_loop now tn tp s : pc (after_main (loop now tn tp s)) = InLoop.
Proof.
  pose proof (loop_returns now tn tp s) as Hret.
  by destruct (loop now tn tp s).
Qed.

Lemma served_or_pending_eq m :
  served_or_pending m =
  (length (plays (out (st m))) + Nat.b2n (pressed BtnNext (st m)) +
   Nat.b2n (pressed BtnPrev (st m)))%nat.
Proof.
  unfold served_or_pending. cbn [pressed].
  by destruct (nextButtonPressed (st m)), (prevButtonPressed (st m)).
Qed.

Lemma served_or_pending_step e m :
  (served_or_pending (step e m) + startup_tracks (step e m) ≤
   served_or_pending m + startup_tracks m +
   (if accepted_edge BtnNext e m then 1 else 0) +
   (if accepted_edge BtnPrev e m then 1 else 0))%nat.
Proof.
  rewrite !served_or_pending_eq, out_step, plays_app, length_app, plays_step_out.
  unfold startup_tracks.
  destruct e as [ok t|now tn tp|b t]; cbn [accepted_edge].
  - cbn [step]. destruct (pc m) eqn:Hpc; [|rewrite Hpc; lia..].
    rewrite st_after_main, pc_after_setup.
    destruct (setup_isr_frame BtnNext ok t (st m)) as (_ & _ & ->).
    destruct (setup_isr_frame BtnPrev ok t (st m)) as (_ & _ & ->).
    destruct ok; lia.
  - cbn [step]. destruct (pc m) eqn:Hpc; [rewrite Hpc; lia| |].
    { cbn [pc st]. change (pressed ?b (exec (delay 1000) (st m)))
        with (pressed b (st m)). lia. }
    rewrite st_after_main, pc_after_loop.
    destruct (loop_isr_frame BtnNext now tn tp (st m)) as (_ & _ & ->).
    destruct (loop_isr_frame BtnPrev now tn tp (st m)) as (_ & _ & ->).
    cbn [pressed].
    destruct (ready_at now (st m)), (nextButtonPressed (st m)),
      (prevButtonPressed (st m)); cbn [Nat.b2n]; lia.
  - rewrite !pressed_step_edge.
    assert (Hpc : pc (step (Edge b t) m) = pc m)
      by (cbn [step]; by destruct (attached b (st m))).
    rewrite Hpc.
    destruct (pressed BtnNext (st m)), (pressed BtnPrev (st m)),
      (bool_decide (b = BtnNext) && attached BtnNext (st m) && accepts BtnNext t (st m)),
      (bool_decide (b = BtnPrev) && attached BtnPrev (st m) && accepts BtnPrev t (st m));
      cbn [orb Nat.b2n]; lia.
Qed.

Lemma served_or_pending_run es m :
  (served_or_pending (run es m) + startup_tracks (run es m) ≤
   served_or_pending m + startup_tracks m +
   accepted_presses BtnNext es m + accepted_presses BtnPrev es m)%nat.
Proof.
  revert m. induction es as [|e es IH]; intros m; [cbn; lia|].
  change (run (e :: es) m) with (run es (step e m)).
  rewrite !accepted_presses_cons.
  pose proof (IH (step e m)). pose proof (served_or_pending_step e m). lia.
Qed.

(** X5.  The device never navigates by itself.  After any sequence of events
    since power-up, the tracks asked of the DFPlayer, other than the two of
    the start-up (the introduction and letter A), are never more than the
    presses the two debounce filters have accepted: every transition answers
    an accepted press. *)
Theorem no_transition_without_a_press (es : list Event) :
  let m := run es boot_machine in
  (length (plays (trace (st m))) ≤
   2 + accepted_presses BtnNext es boot_machine +
       accepted_presses BtnPrev es boot_machine)%nat.
Proof.
  intros m. pose proof (served_or_pending_run es boot_machine) as H.
  fold m in H. unfold served_or_pending in H.
  unfold trace. rewrite plays_rev, length_rev.
  change (startup_tracks boot_machine) with 2%nat in H.
  change (length (plays (out (st boot_machine)))) with 0%nat in H.
  change (nextButtonPressed (st boot_machine)) with false in H.
  change (prevButtonPressed (st boot_machine)) with false in H.
  cbv iota in H.
  destruct (nextButtonPressed (st m)), (prevButtonPressed (st m)); lia.
Qed.
